(** * The Apigee runtime SPI adapter (runtime-spi-apigee/lib/apigeeruntime.js)

    A shallow embedding of the adapter: the constructor [spi], its seven
    operations, [makeRequest], [makeGetRequest], [readResponse],
    [requestComplete] and [getRequestComplete], together with the parts of
    the JavaScript run time they call (ToString, truthiness, [parseInt],
    [JSON.parse], [querystring.stringify], base64, the decoding of a
    Buffer into text and the protocol field of [url.parse]).

    Conventions of the embedding.
    - A JavaScript string is a Rocq [string] holding the UTF-8 bytes of
      the text, the form in which it travels on the wire in both
      directions.
    - A Number is a binary64 value, kept as its sign, its integer
      significand and its binary exponent; [Dec m e] is the Number
      nearest to m * 10^e, which is what a decimal literal denotes.
    - The observable effects of a call are a trace of [Sent] requests and
      [Called] callback invocations; an exception that nobody catches ends
      the trace. *)

From Stdlib Require Import String Ascii ZArith NArith List Bool Lia.
From Stdlib Require Import DecimalString DecimalN DecimalPos.
Import ListNotations.

Local Open Scope string_scope.
Local Open Scope Z_scope.

(** ** Characters and strings *)

Definition ord (c : ascii) : Z := Z.of_N (N_of_ascii c).

Definition in_range (lo hi : Z) (c : ascii) : bool :=
  (lo <=? ord c) && (ord c <=? hi).

Definition is_digit (c : ascii) : bool := in_range 48 57 c.
Definition is_upper (c : ascii) : bool := in_range 65 90 c.
Definition is_lower (c : ascii) : bool := in_range 97 122 c.

Definition chars (s : string) : list ascii := list_ascii_of_string s.
Definition text (l : list ascii) : string := string_of_list_ascii l.

Definition ascii_of_code (n : Z) : ascii := ascii_of_N (Z.to_N n).

Definition to_lower (c : ascii) : ascii :=
  if is_upper c then ascii_of_code (ord c + 32) else c.

(** The double quote, which a string literal cannot hold conveniently. *)
Definition dquote : ascii := "034"%char.
Definition quoted (s : string) : string :=
  String dquote (s ++ String dquote EmptyString).

(** Decimal digits of a natural number, without leading zeros. *)
Definition digits_of (n : Z) : list ascii :=
  chars (NilZero.string_of_uint (N.to_uint (Z.to_N n))).

Fixpoint join (sep : string) (l : list string) : string :=
  match l with
  | [] => EmptyString
  | [x] => x
  | x :: r => x ++ sep ++ join sep r
  end.

(** White space as [String.prototype.trim] and [parseInt] see it
    (WhiteSpace and LineTerminator of ECMAScript 5), here on UTF-8 bytes:
    TAB LF VT FF CR SP, then U+00A0, U+1680, U+2000..U+200A, U+2028,
    U+2029, U+202F, U+205F, U+3000 and U+FEFF. *)
Definition is_ascii_space (c : ascii) : bool :=
  in_range 9 13 c || (ord c =? 32).

Definition is_space3 (a b c : ascii) : bool :=
  let '(x, y, z) := (ord a, ord b, ord c) in
  ((x =? 225) && (y =? 154) && (z =? 128))
  || ((x =? 226) && (y =? 128) && ((128 <=? z) && (z <=? 138)))
  || ((x =? 226) && (y =? 128) && ((z =? 168) || (z =? 169) || (z =? 175)))
  || ((x =? 226) && (y =? 129) && (z =? 159))
  || ((x =? 227) && (y =? 128) && (z =? 128))
  || ((x =? 239) && (y =? 187) && (z =? 191)).

Fixpoint trim_start (l : list ascii) : list ascii :=
  match l with
  | [] => []
  | a :: r =>
    if is_ascii_space a then trim_start r
    else
      match r with
      | b :: r' =>
        if (ord a =? 194) && (ord b =? 160) then trim_start r'
        else
          match r' with
          | c :: r'' => if is_space3 a b c then trim_start r'' else l
          | [] => l
          end
      | [] => l
      end
  end.

(** ** Numbers and primitive values *)

(** A Number is a binary64 value: [NaN], an infinity, or
    (-1)^negative * m * 2^e, where zero has m = 0 and e = 0, a normal
    number has 2^52 <= m < 2^53 and -1074 <= e <= 971, and a subnormal
    one has 0 < m < 2^52 and e = -1074. *)
Inductive number : Type :=
| NaN
| Infinity (negative : bool)
| Finite (negative : bool) (m : Z) (e : Z).

Definition number_eqb (x y : number) : bool :=
  match x, y with
  | NaN, NaN => true
  | Infinity a, Infinity b => Bool.eqb a b
  | Finite a m e, Finite b m' e' => Bool.eqb a b && (m =? m') && (e =? e')
  | _, _ => false
  end.

(** The quotient and the remainder of (num / den) / 2^e, with the divisor
    they belong to. *)
Definition scaled (num den e : Z) : Z * Z * Z :=
  let (n, d) :=
    if 0 <=? e then (num, den * 2 ^ e) else (num * 2 ^ (- e), den) in
  (n / d, n mod d, d).

(** The Number nearest to num / den, for num >= 0 and den > 0, a tie
    going to the even significand.  The exponent is first set so that the
    quotient has 53 or 54 bits (or is subnormal) and raised by one in the
    second case; rounding up may carry into the exponent once more, and
    an exponent beyond 971 is an overflow. *)
Definition round_binary64 (negative : bool) (num den : Z) : number :=
  if num =? 0 then Finite negative 0 0
  else
    let e := Z.max (Z.log2 num - Z.log2 den - 53) (-1074) in
    let '(q, _, _) := scaled num den e in
    let e := if 2 ^ 53 <=? q then e + 1 else e in
    let '(q, r, d) := scaled num den e in
    let m := if (d <? 2 * r) || ((d =? 2 * r) && Z.odd q) then q + 1 else q in
    let (m, e) := if m =? 2 ^ 53 then (2 ^ 52, e + 1) else (m, e) in
    if 971 <? e then Infinity negative
    else if m =? 0 then Finite negative 0 0
    else Finite negative m e.

(** The Number that the decimal (-1)^negative * m * 10^e denotes, for
    m >= 0.  The two tests on [e] only spare the powers of ten that are
    out of reach: beyond 10^400 lies the infinity, and a value below
    2^-1076 is nearest to zero. *)
Definition Number_of_decimal (negative : bool) (m e : Z) : number :=
  if m =? 0 then Finite negative 0 0
  else if 400 <? e then Infinity negative
  else if Z.log2 m + 1 + 3 * e <? -1076 then Finite negative 0 0
  else if 0 <=? e then round_binary64 negative (m * 10 ^ e) 1
  else round_binary64 negative m (10 ^ (- e)).

Definition Dec (m e : Z) : number :=
  Number_of_decimal (m <? 0) (Z.abs m) e.

Fixpoint drop_zeros (l : list ascii) : list ascii :=
  match l with
  | c :: r => if (ord c =? 48) then drop_zeros r else l
  | [] => []
  end.

Definition zeros (n : Z) : list ascii := repeat "0"%char (Z.to_nat n).

(** num / den < 10^n *)
Definition below_pow10 (num den n : Z) : bool :=
  if 0 <=? n then num <? den * 10 ^ n else num * 10 ^ (- n) <? den.

Fixpoint first_above (fuel : nat) (num den n : Z) : Z :=
  match fuel with
  | O => n
  | S fuel' =>
    if below_pow10 num den n then n else first_above fuel' num den (n + 1)
  end.

(** The n with 10^(n-1) <= num / den < 10^n, sought upwards from a little
    below the logarithm that the bit lengths give. *)
Definition decimal_exponent (num den : Z) : Z :=
  first_above 6 num den ((Z.log2 num - Z.log2 den) * 30103 / 100000 - 2).

(** The digits of Number::toString: the least k for which some integer s
    of k digits makes s * 10^(n-k) denote the Number [x] = num / den, and
    of two such s the one nearer to [x], the even one on a tie.  The
    candidates for a k are the two multiples of 10^(n-k) around [x].
    Seventeen digits always tell a binary64 value. *)
Fixpoint shortest (fuel : nat) (x : number) (num den n k : Z) : Z * Z :=
  let p := n - k in
  let (a, b) :=
    if 0 <=? p then (num, den * 10 ^ p) else (num * 10 ^ (- p), den) in
  let lo := a / b in
  let hi := lo + 1 in
  let lo_ok := number_eqb (Number_of_decimal false lo p) x in
  let hi_ok := number_eqb (Number_of_decimal false hi p) x in
  let nearer_lo :=
    (2 * a <? (2 * lo + 1) * b)
    || ((2 * a =? (2 * lo + 1) * b) && Z.even lo) in
  match fuel with
  | O => (lo, p)
  | S fuel' =>
    if lo_ok && (negb hi_ok || nearer_lo) then (lo, p)
    else if hi_ok then (hi, p)
    else shortest fuel' x num den n (k + 1)
  end.

(** Number::toString of ECMAScript (radix 10): [ds] are the significant
    digits s, [k] their count and [n] the position of the decimal point,
    so that the value is s * 10^(n - k). *)
Definition Number_toString (x : number) : string :=
  match x with
  | NaN => "NaN"
  | Infinity false => "Infinity"
  | Infinity true => "-Infinity"
  | Finite negative m e =>
    if m =? 0 then "0"
    else
      let (num, den) :=
        if 0 <=? e then (m * 2 ^ e, 1) else (m, 2 ^ (- e)) in
      let (s, p) :=
        shortest 17 (Finite false m e) num den (decimal_exponent num den) 1 in
      let all := digits_of s in
      let ds := rev (drop_zeros (rev all)) in
      let k := Z.of_nat (length ds) in
      let n := Z.of_nat (length all) + p in
      let body :=
        (if (k <=? n) && (n <=? 21) then ds ++ zeros (n - k)
         else if (0 <? n) && (n <=? 21) then
           firstn (Z.to_nat n) ds ++ "."%char :: skipn (Z.to_nat n) ds
         else if (-6 <? n) && (n <=? 0) then
           "0"%char :: "."%char :: zeros (- n) ++ ds
         else
           let ex := (if n - 1 <? 0 then "-"%char else "+"%char)
                       :: digits_of (Z.abs (n - 1)) in
           match ds with
           | [] => []
           | [d] => d :: "e"%char :: ex
           | d :: r => d :: "."%char :: r ++ "e"%char :: ex
           end)%list in
      text ((if negative then ["-"%char] else []) ++ body)%list
  end.

(** [isFinite(x)] *)
Definition isFinite (x : number) : bool :=
  match x with
  | Finite _ _ _ => true
  | _ => false
  end.

Inductive prim : Type :=
| PUndef
| PNull
| PBool (b : bool)
| PNum (n : number)
| PStr (s : string).

(** ToBoolean: what [if (x)] tests. *)
Definition truthy (p : prim) : bool :=
  match p with
  | PUndef | PNull => false
  | PBool b => b
  | PNum NaN => false
  | PNum (Infinity _) => true
  | PNum (Finite _ m _) => negb (m =? 0)
  | PStr s => negb (String.eqb s EmptyString)
  end.

(** ToString, which [+] with a string operand applies to the other one. *)
Definition to_str (p : prim) : string :=
  match p with
  | PUndef => "undefined"
  | PNull => "null"
  | PBool true => "true"
  | PBool false => "false"
  | PNum n => Number_toString n
  | PStr s => s
  end.

#[local] Set Warnings "-register-all".

(** Values: primitives, arrays and plain objects.  An object keeps its
    properties in insertion order. *)
Inductive value : Type :=
| VPrim (p : prim)
| VArr (l : list value)
| VObj (m : list (string * value)).

Definition undefined : value := VPrim PUndef.

(** [o[k] = v] and [o[k]] on the property list of an object. *)
Fixpoint obj_set {A : Type} (k : string) (v : A) (o : list (string * A))
  : list (string * A) :=
  match o with
  | [] => [(k, v)]
  | (k', v') :: r =>
    if String.eqb k k' then (k, v) :: r else (k', v') :: obj_set k v r
  end.

Fixpoint obj_get {A : Type} (k : string) (o : list (string * A)) : option A :=
  match o with
  | [] => None
  | (k', v) :: r => if String.eqb k k' then Some v else obj_get k r
  end.

(** ToString of a value; [None] when the conversion throws a TypeError.
    A primitive has its text.  A plain object answers [[object Object]]
    through the [toString] of its prototype, unless it has a property of
    its own called [toString]: in a parsed object that property is no
    function, [valueOf] then gives the object itself or is hidden in the
    same way, and the conversion throws.  An array joins the texts of its
    elements, [null] and [undefined] giving none, and throws when the
    conversion of an element does. *)
Fixpoint value_toString (v : value) : option string :=
  match v with
  | VPrim p => Some (to_str p)
  | VObj m =>
    match obj_get "toString" m with
    | Some _ => None
    | None => Some "[object Object]"
    end
  | VArr l =>
    option_map (join ",")
      ((fix each (l : list value) : option (list string) :=
          match l with
          | [] => Some []
          | x :: r =>
            match
              match x with
              | VPrim PUndef | VPrim PNull => Some EmptyString
              | _ => value_toString x
              end
            with
            | Some s => option_map (cons s) (each r)
            | None => None
            end
          end) l)
  end.

(** ** parseInt *)

Definition digit_value (radix : Z) (c : ascii) : option Z :=
  let d :=
    if is_digit c then ord c - 48
    else if is_lower c then ord c - 87
    else if is_upper c then ord c - 55
    else 99 in
  if d <? radix then Some d else None.

Fixpoint digits_value (radix : Z) (l : list ascii) (acc : option Z)
  : option Z :=
  match l with
  | [] => acc
  | c :: r =>
    match digit_value radix c with
    | Some d =>
      digits_value radix r
        (Some (match acc with Some a => a * radix + d | None => d end))
    | None => acc
    end
  end.

(** [parseInt(s)] with no radix: leading white space, a sign, [0x] for
    base 16, then the longest run of digits; [NaN] when there is none. *)
Definition parseInt_string (s : string) : number :=
  let l := trim_start (chars s) in
  let '(negative, l) :=
    match l with
    | "-"%char :: r => (true, r)
    | "+"%char :: r => (false, r)
    | _ => (false, l)
    end in
  let '(radix, l) :=
    match l with
    | "0"%char :: "x"%char :: r | "0"%char :: "X"%char :: r => (16, r)
    | _ => (10, l)
    end in
  match digits_value radix l None with
  | Some n => Number_of_decimal negative n 0
  | None => NaN
  end.


(** ** querystring.stringify *)

Module querystring.

Definition hex_digit (n : Z) : ascii :=
  if n <? 10 then ascii_of_code (48 + n) else ascii_of_code (55 + n).

(** The characters [encodeURIComponent] leaves alone: letters, digits and
    [- _ . ! ~ * ' ( )]. *)
Definition is_unreserved (c : ascii) : bool :=
  is_digit c || is_upper c || is_lower c
  || existsb (Ascii.eqb c) (chars "-_.!~*'()").

(** [querystring.escape], that is [encodeURIComponent]: every other byte
    of the UTF-8 form becomes [%XX]. *)
Definition escape_char (c : ascii) : list ascii :=
  if is_unreserved c then [c]
  else ["%"%char; hex_digit (Z.shiftr (ord c) 4);
        hex_digit (Z.land (ord c) 15)].

Definition escape (s : string) : string :=
  text (flat_map escape_char (chars s)).

(** [stringifyPrimitive] of the querystring module. *)
Definition stringifyPrimitive (p : prim) : string :=
  match p with
  | PStr s => s
  | PBool true => "true"
  | PBool false => "false"
  | PNum n => if isFinite n then Number_toString n else EmptyString
  | PUndef | PNull => EmptyString
  end.

(** [querystring.stringify(qs)] of an object whose property values are
    primitives: [key=value] pairs in property order, joined by [&]. *)
Definition stringify (qs : list (string * prim)) : string :=
  join "&"
    (map (fun kv => escape (fst kv) ++ "="
                      ++ escape (stringifyPrimitive (snd kv)))
         qs).

End querystring.

(** ** Buffer(...).toString('base64') *)

Definition base64_alphabet : string :=
  "ABCDEFGHIJKLMNOPQRSTUVWXYZabcdefghijklmnopqrstuvwxyz0123456789+/".

Definition b64 (n : Z) : ascii :=
  match String.get (Z.to_nat n) base64_alphabet with
  | Some c => c
  | None => "="%char
  end.

Fixpoint base64_bytes (l : list Z) : list ascii :=
  match l with
  | [] => []
  | [a] =>
    [b64 (Z.shiftr a 2); b64 (Z.shiftl (Z.land a 3) 4); "="%char; "="%char]
  | [a; b] =>
    [b64 (Z.shiftr a 2);
     b64 (Z.lor (Z.shiftl (Z.land a 3) 4) (Z.shiftr b 4));
     b64 (Z.shiftl (Z.land b 15) 2); "="%char]
  | a :: b :: c :: r =>
    b64 (Z.shiftr a 2)
    :: b64 (Z.lor (Z.shiftl (Z.land a 3) 4) (Z.shiftr b 4))
    :: b64 (Z.lor (Z.shiftl (Z.land b 15) 2) (Z.shiftr c 6))
    :: b64 (Z.land c 63)
    :: base64_bytes r
  end.

Definition base64 (s : string) : string :=
  text (base64_bytes (map ord (chars s))).

(** ** The protocol field of url.parse

    The legacy parser trims the string and takes the match of
    [/^([a-z0-9.+-]+:)/i], in lower case; there is none ([null]) when the
    string does not start that way. *)
Definition is_scheme_char (c : ascii) : bool :=
  is_digit c || is_upper c || is_lower c
  || existsb (Ascii.eqb c) (chars ".+-").

Fixpoint scan_protocol (l acc : list ascii) : option (list ascii) :=
  match l with
  | [] => None
  | c :: r =>
    if is_scheme_char c then scan_protocol r (to_lower c :: acc)
    else if Ascii.eqb c ":"%char then
      match acc with
      | [] => None
      | _ => Some (rev (":"%char :: acc))
      end
    else None
  end.

Definition url_protocol (u : string) : option string :=
  option_map text (scan_protocol (trim_start (chars u)) []).

(** ** JSON.parse

    A lexer that reads the text one byte at a time and a push-down parser
    over its tokens; both are total, and [None] stands for the
    SyntaxError that [JSON.parse] throws. *)

Module JSON.

Inductive token : Type :=
| TLBrace | TRBrace | TLBracket | TRBracket | TColon | TComma
| TString (s : string)
| TNumber (n : number)
| TTrue | TFalse | TNull.

Inductive num_state : Type :=
| NMinus | NZero | NInt | NDot | NFrac | NExpMark | NExpSign | NExp.

Record num_acc : Type := {
  negative : bool;      (* a leading minus sign *)
  mantissa : Z;         (* the digits of the integer and fraction parts *)
  fraction : Z;         (* how many of them follow the point *)
  exp_negative : bool;
  exponent : Z
}.

Definition num_start (neg : bool) (d : Z) : num_acc :=
  {| negative := neg; mantissa := d; fraction := 0;
     exp_negative := false; exponent := 0 |}.

Definition number_of (a : num_acc) : number :=
  Number_of_decimal (negative a) (mantissa a)
    ((if exp_negative a then - exponent a else exponent a) - fraction a).

Inductive lex_mode : Type :=
| Idle
| InWord (rest : list ascii) (t : token)
| InNumber (st : num_state) (a : num_acc)
| InString (acc : list ascii)
| InEscape (acc : list ascii)
| InUnicode (acc : list ascii) (hi : option Z) (k : nat) (cu : Z)
| AfterHigh (acc : list ascii) (hi : Z)
| AfterHighEscape (acc : list ascii) (hi : Z).

(** Pushes the UTF-8 bytes of a code point onto a reversed byte list.  A
    surrogate that stands alone keeps the three-byte form. *)
Definition push_utf8 (cp : Z) (acc : list ascii) : list ascii :=
  let cont (n : Z) := ascii_of_code (Z.lor 128 (Z.land n 63)) in
  if cp <? 128 then ascii_of_code cp :: acc
  else if cp <? 2048 then
    cont cp :: ascii_of_code (Z.lor 192 (Z.shiftr cp 6)) :: acc
  else if cp <? 65536 then
    cont cp :: cont (Z.shiftr cp 6)
      :: ascii_of_code (Z.lor 224 (Z.shiftr cp 12)) :: acc
  else
    cont cp :: cont (Z.shiftr cp 6) :: cont (Z.shiftr cp 12)
      :: ascii_of_code (Z.lor 240 (Z.shiftr cp 18)) :: acc.

Definition is_high_surrogate (cu : Z) : bool := (55296 <=? cu) && (cu <=? 56319).
Definition is_low_surrogate (cu : Z) : bool := (56320 <=? cu) && (cu <=? 57343).

Definition idle_step (c : ascii) : option (lex_mode * list token) :=
  match c with
  | " "%char | "009"%char | "010"%char | "013"%char => Some (Idle, [])
  | "{"%char => Some (Idle, [TLBrace])
  | "}"%char => Some (Idle, [TRBrace])
  | "["%char => Some (Idle, [TLBracket])
  | "]"%char => Some (Idle, [TRBracket])
  | ":"%char => Some (Idle, [TColon])
  | ","%char => Some (Idle, [TComma])
  | "034"%char => Some (InString [], [])
  | "-"%char => Some (InNumber NMinus (num_start true 0), [])
  | "0"%char => Some (InNumber NZero (num_start false 0), [])
  | "t"%char => Some (InWord (chars "rue") TTrue, [])
  | "f"%char => Some (InWord (chars "alse") TFalse, [])
  | "n"%char => Some (InWord (chars "ull") TNull, [])
  | _ =>
    if is_digit c then Some (InNumber NInt (num_start false (ord c - 48)), [])
    else None
  end.

Definition add_digit (a : num_acc) (d : Z) (after_point : bool) : num_acc :=
  {| negative := negative a; mantissa := mantissa a * 10 + d;
     fraction := if after_point then fraction a + 1 else fraction a;
     exp_negative := exp_negative a; exponent := exponent a |}.

Definition add_exp_digit (a : num_acc) (d : Z) : num_acc :=
  {| negative := negative a; mantissa := mantissa a; fraction := fraction a;
     exp_negative := exp_negative a; exponent := exponent a * 10 + d |}.

Definition set_exp_negative (a : num_acc) : num_acc :=
  {| negative := negative a; mantissa := mantissa a; fraction := fraction a;
     exp_negative := true; exponent := exponent a |}.

Definition is_exp_mark (c : ascii) : bool :=
  Ascii.eqb c "e"%char || Ascii.eqb c "E"%char.

(** The number ends before [c], which starts the next token. *)
Definition number_end (a : num_acc) (c : ascii)
  : option (lex_mode * list token) :=
  match idle_step c with
  | Some (m, ts) => Some (m, TNumber (number_of a) :: ts)
  | None => None
  end.

Definition number_step (st : num_state) (a : num_acc) (c : ascii)
  : option (lex_mode * list token) :=
  let d := ord c - 48 in
  match st with
  | NMinus =>
    if Ascii.eqb c "0"%char then Some (InNumber NZero a, [])
    else if is_digit c then Some (InNumber NInt (add_digit a d false), [])
    else None
  | NZero =>
    if Ascii.eqb c "."%char then Some (InNumber NDot a, [])
    else if is_exp_mark c then Some (InNumber NExpMark a, [])
    else number_end a c
  | NInt =>
    if is_digit c then Some (InNumber NInt (add_digit a d false), [])
    else if Ascii.eqb c "."%char then Some (InNumber NDot a, [])
    else if is_exp_mark c then Some (InNumber NExpMark a, [])
    else number_end a c
  | NDot =>
    if is_digit c then Some (InNumber NFrac (add_digit a d true), [])
    else None
  | NFrac =>
    if is_digit c then Some (InNumber NFrac (add_digit a d true), [])
    else if is_exp_mark c then Some (InNumber NExpMark a, [])
    else number_end a c
  | NExpMark =>
    if is_digit c then Some (InNumber NExp (add_exp_digit a d), [])
    else if Ascii.eqb c "+"%char then Some (InNumber NExpSign a, [])
    else if Ascii.eqb c "-"%char then
      Some (InNumber NExpSign (set_exp_negative a), [])
    else None
  | NExpSign =>
    if is_digit c then Some (InNumber NExp (add_exp_digit a d), [])
    else None
  | NExp =>
    if is_digit c then Some (InNumber NExp (add_exp_digit a d), [])
    else number_end a c
  end.

Definition string_step (acc : list ascii) (c : ascii)
  : option (lex_mode * list token) :=
  if Ascii.eqb c dquote then Some (Idle, [TString (text (rev acc))])
  else if Ascii.eqb c "\"%char then Some (InEscape acc, [])
  else if ord c <? 32 then None
  else Some (InString (c :: acc), []).

Definition escape_step (acc : list ascii) (c : ascii)
  : option (lex_mode * list token) :=
  match c with
  | "034"%char | "\"%char | "/"%char => Some (InString (c :: acc), [])
  | "b"%char => Some (InString ("008"%char :: acc), [])
  | "f"%char => Some (InString ("012"%char :: acc), [])
  | "n"%char => Some (InString ("010"%char :: acc), [])
  | "r"%char => Some (InString ("013"%char :: acc), [])
  | "t"%char => Some (InString ("009"%char :: acc), [])
  | "u"%char => Some (InUnicode acc None 3 0, [])
  | _ => None
  end.

(** The code unit [cu] of a [\uXXXX] escape is complete; [hi] is the high
    surrogate of the escape just before it, if that was one. *)
Definition unicode_end (acc : list ascii) (hi : option Z) (cu : Z) : lex_mode :=
  match hi with
  | None =>
    if is_high_surrogate cu then AfterHigh acc cu
    else InString (push_utf8 cu acc)
  | Some h =>
    if is_low_surrogate cu then
      InString (push_utf8 (65536 + (h - 55296) * 1024 + (cu - 56320)) acc)
    else if is_high_surrogate cu then AfterHigh (push_utf8 h acc) cu
    else InString (push_utf8 cu (push_utf8 h acc))
  end.

Definition lex_step (m : lex_mode) (c : ascii)
  : option (lex_mode * list token) :=
  match m with
  | Idle => idle_step c
  | InWord [] _ => None
  | InWord [x] t => if Ascii.eqb c x then Some (Idle, [t]) else None
  | InWord (x :: rest) t =>
    if Ascii.eqb c x then Some (InWord rest t, []) else None
  | InNumber st a => number_step st a c
  | InString acc => string_step acc c
  | InEscape acc => escape_step acc c
  | InUnicode acc hi k cu =>
    match digit_value 16 c with
    | None => None
    | Some d =>
      match k with
      | O => Some (unicode_end acc hi (cu * 16 + d), [])
      | S k' => Some (InUnicode acc hi k' (cu * 16 + d), [])
      end
    end
  | AfterHigh acc h =>
    if Ascii.eqb c "\"%char then Some (AfterHighEscape acc h, [])
    else string_step (push_utf8 h acc) c
  | AfterHighEscape acc h =>
    if Ascii.eqb c "u"%char then Some (InUnicode acc (Some h) 3 0, [])
    else escape_step (push_utf8 h acc) c
  end.

Definition lex_end (m : lex_mode) : option (list token) :=
  match m with
  | Idle => Some []
  | InNumber NZero a | InNumber NInt a | InNumber NFrac a | InNumber NExp a =>
    Some [TNumber (number_of a)]
  | _ => None
  end.

Fixpoint lex (m : lex_mode) (l : list ascii) : option (list token) :=
  match l with
  | [] => lex_end m
  | c :: r =>
    match lex_step m c with
    | None => None
    | Some (m', ts) => option_map (app ts) (lex m' r)
    end
  end.

(** What the parser is inside of: an array with the elements read so far
    (reversed), or an object with its properties and the key that waits
    for its value. *)
Inductive frame : Type :=
| InArr (elems : list value)
| InObj (props : list (string * value)) (key : option string).

Inductive expect : Type :=
| EValue            (* a value *)
| EValueOrEnd       (* a value or the end of the array *)
| EKeyOrEnd         (* a key or the end of the object *)
| EKey              (* a key *)
| EColon
| ESeparator        (* a comma or the end of the container *)
| EDone (v : value).

(** A value is complete: it goes into the container on top of the stack.
    A key that occurs twice keeps its place and takes the later value. *)
Definition push_value (v : value) (stack : list frame)
  : option (expect * list frame) :=
  match stack with
  | [] => Some (EDone v, [])
  | InArr l :: s => Some (ESeparator, InArr (v :: l) :: s)
  | InObj m (Some k) :: s => Some (ESeparator, InObj (obj_set k v m) None :: s)
  | InObj _ None :: _ => None
  end.

Definition value_step (t : token) (stack : list frame)
  : option (expect * list frame) :=
  match t with
  | TString s => push_value (VPrim (PStr s)) stack
  | TNumber n => push_value (VPrim (PNum n)) stack
  | TTrue => push_value (VPrim (PBool true)) stack
  | TFalse => push_value (VPrim (PBool false)) stack
  | TNull => push_value (VPrim PNull) stack
  | TLBracket => Some (EValueOrEnd, InArr [] :: stack)
  | TLBrace => Some (EKeyOrEnd, InObj [] None :: stack)
  | _ => None
  end.

Definition close_array (stack : list frame) : option (expect * list frame) :=
  match stack with
  | InArr l :: s => push_value (VArr (rev l)) s
  | _ => None
  end.

Definition close_object (stack : list frame) : option (expect * list frame) :=
  match stack with
  | InObj m None :: s => push_value (VObj m) s
  | _ => None
  end.

Definition key_step (t : token) (stack : list frame)
  : option (expect * list frame) :=
  match t, stack with
  | TString k, InObj m None :: s => Some (EColon, InObj m (Some k) :: s)
  | _, _ => None
  end.

Definition parse_step (e : expect) (stack : list frame) (t : token)
  : option (expect * list frame) :=
  match e with
  | EValue => value_step t stack
  | EValueOrEnd =>
    match t with
    | TRBracket => close_array stack
    | _ => value_step t stack
    end
  | EKeyOrEnd =>
    match t with
    | TRBrace => close_object stack
    | _ => key_step t stack
    end
  | EKey => key_step t stack
  | EColon =>
    match t with
    | TColon => Some (EValue, stack)
    | _ => None
    end
  | ESeparator =>
    match t, stack with
    | TComma, InArr _ :: _ => Some (EValue, stack)
    | TComma, InObj _ _ :: _ => Some (EKey, stack)
    | TRBracket, _ => close_array stack
    | TRBrace, _ => close_object stack
    | _, _ => None
    end
  | EDone _ => None
  end.

Fixpoint parse_tokens (e : expect) (stack : list frame) (ts : list token)
  : option value :=
  match ts with
  | [] =>
    match e with
    | EDone v => Some v
    | _ => None
    end
  | t :: r =>
    match parse_step e stack t with
    | Some (e', stack') => parse_tokens e' stack' r
    | None => None
    end
  end.

Definition parse (s : string) : option value :=
  match lex Idle (chars s) with
  | Some ts => parse_tokens EValue [] ts
  | None => None
  end.

End JSON.

(** ** Effects: requests, callback invocations and exceptions *)

(** An Error object: its message and the [statusCode] property that the
    completion handlers add. *)
Record js_error : Type := {
  err_message : string;
  err_statusCode : option Z
}.

(** [new Error(msg)] *)
Definition Error (msg : string) : js_error :=
  {| err_message := msg; err_statusCode := None |}.

(** The options handed to [http.request], [r = url.parse(finalUri)] with
    the properties the adapter adds, and the body given to [req.end].
    [url] is the string that [url.parse] was given, not the [href] of its
    result: the parser lower-cases the scheme and the host and escapes
    some characters, and the request goes to the host, port and path it
    reads from that string.  [protocol] is the one field of the result
    that the adapter itself looks at. *)
Record request : Type := {
  url : string;
  protocol : option string;
  method : string;
  headers : list (string * prim);
  body : option string
}.

Inductive effect : Type :=
| Sent (r : request)
| Called (err : option js_error) (result : value).

Inductive exn : Type :=
| Throw (e : js_error)
| SyntaxError
| TypeError
| CallerException.

Inductive outcome (A : Type) : Type :=
| Returned (a : A)
| Thrown (x : exn).
Arguments Returned {A} a.
Arguments Thrown {A} x.

Definition Eff (A : Type) : Type := (list effect * outcome A)%type.

Definition pure {A : Type} (a : A) : Eff A := ([], Returned a).
Definition throw {A : Type} (x : exn) : Eff A := ([], Thrown x).
Definition perform_effect (e : effect) : Eff unit := ([e], Returned tt).

Definition bind {A B : Type} (m : Eff A) (f : A -> Eff B) : Eff B :=
  match m with
  | (t, Returned a) => let (t', o) := f a in ((t ++ t')%list, o)
  | (t, Thrown x) => (t, Thrown x)
  end.

(** [try { m } catch (x) { h x }]; the handler sees whatever was thrown. *)
Definition try_catch {A : Type} (m : Eff A) (h : exn -> Eff A) : Eff A :=
  match m with
  | (t, Returned a) => (t, Returned a)
  | (t, Thrown x) => let (t', o) := h x in ((t ++ t')%list, o)
  end.

Notation "x <- m ;; k" := (bind m (fun x => k))
  (at level 61, m at next level, right associativity).
Notation "m ;; k" := (bind m (fun _ => k))
  (at level 61, right associativity).

Definition trace {A : Type} (m : Eff A) : list effect := fst m.

(** A completion callback, called as [cb(err, result)]. *)
Definition callback : Type := option js_error -> value -> Eff unit.

(** The callback of the caller: each invocation is recorded, and [throws]
    tells whether the caller's code throws on it. *)
Definition caller (throws : option js_error -> value -> bool) : callback :=
  fun err result =>
    ([Called err result],
     if throws err result then Thrown CallerException else Returned tt).

(** The invocations of the caller's callback in a trace, in order. *)
Fixpoint calls (t : list effect) : list (option js_error * value) :=
  match t with
  | [] => []
  | Called err result :: r => (err, result) :: calls r
  | Sent _ :: r => calls r
  end.

(** The requests handed to the network, in order. *)
Fixpoint requests (t : list effect) : list request :=
  match t with
  | [] => []
  | Sent q :: r => q :: requests r
  | Called _ _ :: r => requests r
  end.

(** [parseInt(v)]: the argument is converted to a string, which may
    throw, and the string is read. *)
Definition ToString (v : value) : Eff string :=
  match value_toString v with
  | Some s => pure s
  | None => throw TypeError
  end.

Definition parseInt (v : value) : Eff number :=
  s <- ToString v ;;
  pure (parseInt_string s).

(** [JSON.parse(s)] and the property read [v.k] as computations. *)
Definition JSON_parse (s : string) : Eff value :=
  match JSON.parse s with
  | Some v => pure v
  | None => throw SyntaxError
  end.

(** [v.k] for a property name that no prototype defines: the own property
    of an object, [undefined] on any other value, a TypeError on [null]
    and [undefined]. *)
Definition get (v : value) (k : string) : Eff value :=
  match v with
  | VPrim PNull | VPrim PUndef => throw TypeError
  | VObj m =>
    match obj_get k m with
    | Some x => pure x
    | None => pure undefined
    end
  | _ => pure undefined
  end.

(** ** The adapter *)

(** The argument of the constructor and the adapter it makes. *)
Record spi_options : Type := {
  opt_uri : prim;
  opt_key : prim
}.

Record adapter : Type := {
  uri : prim;
  key : prim
}.

Definition spi (options : spi_options) : Eff adapter :=
  if negb (truthy (opt_uri options)) then
    throw (Throw (Error "uri parameter must be specified"))
  else if negb (truthy (opt_key options)) then
    throw (Throw (Error "key parameter must be specified"))
  else
    pure {| uri := opt_uri options; key := opt_key options |}.

(** The parameter object of an operation.  A property that the caller
    leaves out reads as [PUndef]. *)
Record Options : Type := {
  clientId : prim;
  clientSecret : prim;
  scope : prim;
  tokenLifetime : prim;
  username : prim;
  password : prim;
  code : prim;
  redirectUri : prim;
  state : prim;
  refreshToken : prim;
  accessToken : prim;
  grantType : prim
}.

(** [options.grantType = g] *)
Definition set_grantType (g : prim) (o : Options) : Options :=
  {| clientId := clientId o; clientSecret := clientSecret o;
     scope := scope o; tokenLifetime := tokenLifetime o;
     username := username o; password := password o; code := code o;
     redirectUri := redirectUri o; state := state o;
     refreshToken := refreshToken o; accessToken := accessToken o;
     grantType := g |}.

(** What becomes of a request: it fails (the ['error'] event of the
    request) or a response arrives, whose stream then emits its events.
    The handlers of the response hold the parameter object itself, not a
    copy, and the caller holds it too: [meanwhile] is what the caller has
    done to that object between the request and the response. *)
Inductive event : Type :=
| OnReadable (available : list string)  (* what [resp.read()] then yields *)
| OnEnd
| OnError (err : js_error).

Record response : Type := {
  resp_statusCode : Z;
  resp_location : value;               (* [resp.headers.location] *)
  resp_events : list event
}.

Inductive network : Type :=
| RequestError (err : js_error)
| Responds (meanwhile : Options -> Options) (resp : response).

(** ** Buffer.prototype.toString

    The adapter sets no encoding on the response, so [resp.read()] yields
    Buffers, and [data += d] turns each of them into text on its own: its
    bytes are decoded as UTF-8 and every ill-formed part becomes U+FFFD.
    A string being held here as the UTF-8 bytes of its text, well-formed
    bytes stay as they are and U+FFFD appears as its three bytes.  The
    decoder is the one of the Encoding standard: a lead byte announces
    how many bytes follow and the range of the next one; a byte out of
    that range ends the character with one U+FFFD and is looked at again
    as the first byte of the next. *)

Definition replacement : list ascii := ["239"%char; "191"%char; "189"%char].

(** What a first byte announces: a character of its own, [more] + 1
    further bytes of which the next lies in [lower, upper], or nothing. *)
Inductive utf8_lead : Type :=
| Single
| Lead (more : nat) (lower upper : Z)
| Stray.

Definition utf8_lead_of (c : ascii) : utf8_lead :=
  let b := ord c in
  if b <=? 127 then Single
  else if (194 <=? b) && (b <=? 223) then Lead 0 128 191
  else if (224 <=? b) && (b <=? 239) then
    Lead 1 (if b =? 224 then 160 else 128) (if b =? 237 then 159 else 191)
  else if (240 <=? b) && (b <=? 244) then
    Lead 2 (if b =? 240 then 144 else 128) (if b =? 244 then 143 else 191)
  else Stray.

(** The decoder is between two characters or within one, of which it has
    [seen] some bytes (the last one first). *)
Inductive utf8_state : Type :=
| Between
| Within (more : nat) (lower upper : Z) (seen : list ascii).

Definition utf8_begin (c : ascii) : list ascii * utf8_state :=
  match utf8_lead_of c with
  | Single => ([c], Between)
  | Lead more lower upper => ([], Within more lower upper [c])
  | Stray => (replacement, Between)
  end.

Definition utf8_step (st : utf8_state) (c : ascii) : list ascii * utf8_state :=
  match st with
  | Between => utf8_begin c
  | Within more lower upper seen =>
    if in_range lower upper c then
      match more with
      | O => (rev (c :: seen), Between)
      | S more' => ([], Within more' 128 191 (c :: seen))
      end
    else
      let (out, st') := utf8_begin c in ((replacement ++ out)%list, st')
  end.

Fixpoint utf8_decode (st : utf8_state) (l : list ascii) : list ascii :=
  match l with
  | [] =>
    match st with
    | Between => []
    | Within _ _ _ _ => replacement
    end
  | c :: r =>
    let (out, st') := utf8_step st c in (out ++ utf8_decode st' r)%list
  end.

(** [b.toString()], which [data += b] applies to the Buffer [b]. *)
Definition Buffer_toString (b : string) : string :=
  text (utf8_decode Between (chars b)).

(** [readResponse(resp, data)]: [available] are the Buffers that
    [resp.read()] yields before it returns [null]. *)
Fixpoint readResponse (available : list string) (data : string) : string :=
  match available with
  | [] => data
  | d :: rest => readResponse rest (data ++ Buffer_toString d)
  end.

Definition http_error (statusCode : Z) (respData : string) : js_error :=
  let err := Error "Error on HTTP request" in
  let err := {| err_message := err_message err;
                err_statusCode := Some statusCode |} in
  {| err_message := respData; err_statusCode := err_statusCode err |}.

(** [requestComplete(resp, options, cb)]: the three handlers, run on the
    events of the response in turn; [respData] is the variable the
    handlers share. *)
Fixpoint requestComplete_events (statusCode : Z) (options : Options)
    (cb : callback) (events : list event) (respData : string) : Eff unit :=
  match events with
  | [] => pure tt
  | OnError err :: rest =>
    cb (Some err) undefined ;;
    requestComplete_events statusCode options cb rest respData
  | OnReadable available :: rest =>
    requestComplete_events statusCode options cb rest
      (readResponse available respData)
  | OnEnd :: rest =>
    (if statusCode >=? 300 then
       cb (Some (http_error statusCode respData)) undefined
     else
       try_catch
         (sr <- JSON_parse respData ;;
          access_token <- get sr "access_token" ;;
          refresh_token <- get sr "refresh_token" ;;
          scope <- get sr "scope" ;;
          expires_in <- get sr "expires_in" ;;
          expires_in <- parseInt expires_in ;;
          let ret :=
            VObj [("access_token", access_token);
                  ("refresh_token", refresh_token);
                  ("token_type", VPrim (grantType options));
                  ("scope", scope);
                  ("expires_in", VPrim (PNum expires_in))] in
          cb None ret)
         (fun _ => cb None undefined)) ;;
    requestComplete_events statusCode options cb rest respData
  end.

Definition requestComplete (resp : response) (options : Options)
    (cb : callback) : Eff unit :=
  requestComplete_events (resp_statusCode resp) options cb
    (resp_events resp) EmptyString.

Fixpoint getRequestComplete_events (statusCode : Z) (location : value)
    (cb : callback) (events : list event) (respData : string) : Eff unit :=
  match events with
  | [] => pure tt
  | OnError err :: rest =>
    cb (Some err) undefined ;;
    getRequestComplete_events statusCode location cb rest respData
  | OnReadable available :: rest =>
    getRequestComplete_events statusCode location cb rest
      (readResponse available respData)
  | OnEnd :: rest =>
    (if negb (statusCode =? 302) then
       cb (Some (http_error statusCode respData)) undefined
     else
       cb None location) ;;
    getRequestComplete_events statusCode location cb rest respData
  end.

Definition getRequestComplete (resp : response) (options : Options)
    (cb : callback) : Eff unit :=
  getRequestComplete_events (resp_statusCode resp) (resp_location resp) cb
    (resp_events resp) EmptyString.

(** [r.protocol === p] *)
Definition protocol_is (r : request) (p : string) : bool :=
  match protocol r with
  | Some s => String.eqb s p
  | None => false
  end.

(** [http.request(r, onResponse)], or its https twin, followed by
    [req.on('error', ...)] and [req.end(body)]: the request goes to the
    network, which fails it or answers it.  [onResponse] closes over the
    parameter object and is given what that object holds when the
    response arrives. *)
Definition exchange (r : request) (net : network) (options : Options)
    (onResponse : Options -> response -> Eff unit) (cb : callback)
  : Eff unit :=
  perform_effect (Sent r) ;;
  match net with
  | RequestError err => cb (Some err) undefined
  | Responds meanwhile resp => onResponse (meanwhile options) resp
  end.

Definition protocol_text (p : option string) : string :=
  match p with
  | Some s => s
  | None => "null"
  end.

Definition nonempty (s : string) : bool := negb (String.eqb s EmptyString).

(** [makeRequest(self, verb, uriPath, body, options, cb)].  Its first
    test, on an undeclared [o], is never true. *)
Definition makeRequest (self : adapter) (verb uriPath body : string)
    (options : Options) (cb : callback) (net : network) : Eff unit :=
  let finalUri := to_str (uri self) ++ uriPath in
  let headers :=
    [("Authorization",
      PStr (base64 (to_str (clientId options) ++ ":"
                      ++ to_str (clientSecret options))))] in
  let headers := obj_set "x-DNA-Api-Key" (key self) headers in
  let headers :=
    if truthy (tokenLifetime options)
    then obj_set "x-DNA-Token-Lifetime" (tokenLifetime options) headers
    else headers in
  let headers :=
    if nonempty body
    then obj_set "Content-Type" (PStr "application/x-www-form-urlencoded")
           headers
    else headers in
  let r := {| url := finalUri; protocol := url_protocol finalUri;
              method := verb; headers := headers;
              body := if nonempty body then Some body else None |} in
  if protocol_is r "http:" then
    exchange r net options
      (fun options resp => requestComplete resp options cb) cb
  else if protocol_is r "https:" then
    exchange r net options
      (fun options resp => requestComplete resp options cb) cb
  else
    cb (Some (Error ("Unsupported protocol " ++ protocol_text (protocol r))))
       undefined.

Definition makeGetRequest (self : adapter) (uriPath qs : string)
    (options : Options) (cb : callback) (net : network) : Eff unit :=
  let finalUri := to_str (uri self) ++ uriPath ++ "?" ++ qs in
  let headers := obj_set "x-DNA-Api-Key" (key self) [] in
  let r := {| url := finalUri; protocol := url_protocol finalUri;
              method := "GET"; headers := headers; body := None |} in
  if protocol_is r "http:" then
    exchange r net options
      (fun options resp => getRequestComplete resp options cb) cb
  else if protocol_is r "https:" then
    exchange r net options
      (fun options resp => getRequestComplete resp options cb) cb
  else
    cb (Some (Error ("Unsupported protocol " ++ protocol_text (protocol r))))
       undefined.

(** The seven operations, [spi.prototype.*].  ([invalidateToken] comes
    before [refreshToken] so that the property [options.refreshToken]
    keeps its name in both.) *)
Module prototype.

Definition createTokenClientCredentials (self : adapter) (options : Options)
    (cb : callback) (net : network) : Eff unit :=
  let qs := [("grant_type", PStr "client_credentials")] in
  let qs := if truthy (scope options)
            then obj_set "scope" (scope options) qs else qs in
  let body := querystring.stringify qs in
  let options := set_grantType (PStr "client_credentials") options in
  makeRequest self "POST" "/tokentypes/client/tokens" body options
    (fun err result => cb err result) net.

Definition createTokenPasswordCredentials (self : adapter)
    (options : Options) (cb : callback) (net : network) : Eff unit :=
  let qs := [("grant_type", PStr "password");
             ("username", username options);
             ("password", password options)] in
  let qs := if truthy (scope options)
            then obj_set "scope" (scope options) qs else qs in
  let body := querystring.stringify qs in
  let options := set_grantType (PStr "password") options in
  makeRequest self "POST" "/tokentypes/password/tokens" body options
    (fun err result => cb err result) net.

Definition createTokenAuthorizationCode (self : adapter) (options : Options)
    (cb : callback) (net : network) : Eff unit :=
  let qs := [("grant_type", PStr "authorization_code");
             ("code", code options)] in
  let qs := if truthy (redirectUri options)
            then obj_set "redirect_uri" (redirectUri options) qs else qs in
  let qs := if truthy (clientId options)
            then obj_set "client_id" (clientId options) qs else qs in
  let body := querystring.stringify qs in
  let options := set_grantType (PStr "authorization_code") options in
  makeRequest self "POST" "/tokentypes/authcode/tokens" body options
    (fun err result => cb err result) net.

Definition generateAuthorizationCode (self : adapter) (options : Options)
    (cb : callback) (net : network) : Eff unit :=
  let qs := [("response_type", PStr "code");
             ("client_id", clientId options)] in
  let qs := if truthy (redirectUri options)
            then obj_set "redirect_uri" (redirectUri options) qs else qs in
  let qs := if truthy (scope options)
            then obj_set "scope" (scope options) qs else qs in
  let qs := if truthy (state options)
            then obj_set "state" (state options) qs else qs in
  makeGetRequest self "/tokentypes/authcode/authcodes"
    (querystring.stringify qs) options (fun err result => cb err result) net.

Definition createTokenImplicitGrant (self : adapter) (options : Options)
    (cb : callback) (net : network) : Eff unit :=
  let qs := [("response_type", PStr "token");
             ("client_id", clientId options)] in
  let qs := if truthy (redirectUri options)
            then obj_set "redirect_uri" (redirectUri options) qs else qs in
  let qs := if truthy (scope options)
            then obj_set "scope" (scope options) qs else qs in
  let qs := if truthy (state options)
            then obj_set "state" (state options) qs else qs in
  makeGetRequest self "/tokentypes/implicit/tokens"
    (querystring.stringify qs) options (fun err result => cb err result) net.

Definition invalidateToken (self : adapter) (options : Options)
    (cb : callback) (net : network) : Eff unit :=
  let qs := [] in
  let qs :=
    if truthy (refreshToken options) then
      obj_set "token_type_hint" (PStr "refresh_token")
        (obj_set "token" (refreshToken options) qs)
    else
      obj_set "token_type_hint" (PStr "access_token")
        (obj_set "token" (accessToken options) qs) in
  let body := querystring.stringify qs in
  makeRequest self "POST" "/tokentypes/all/invalidate" body options
    (fun err result => cb err result) net.

Definition refreshToken (self : adapter) (options : Options)
    (cb : callback) (net : network) : Eff unit :=
  let qs := [("grant_type", PStr "refresh_token");
             ("refresh_token", refreshToken options)] in
  let qs := if truthy (scope options)
            then obj_set "scope" (scope options) qs else qs in
  let body := querystring.stringify qs in
  let options := set_grantType (PStr "refresh_token") options in
  makeRequest self "POST" "/tokentypes/all/refresh" body options
    (fun err result => cb err result) net.

End prototype.

(** The operations by name. *)
Inductive operation : Type :=
| CreateTokenClientCredentials
| CreateTokenPasswordCredentials
| CreateTokenAuthorizationCode
| GenerateAuthorizationCode
| CreateTokenImplicitGrant
| RefreshToken
| InvalidateToken.

Definition run (op : operation)
  : adapter -> Options -> callback -> network -> Eff unit :=
  match op with
  | CreateTokenClientCredentials => prototype.createTokenClientCredentials
  | CreateTokenPasswordCredentials => prototype.createTokenPasswordCredentials
  | CreateTokenAuthorizationCode => prototype.createTokenAuthorizationCode
  | GenerateAuthorizationCode => prototype.generateAuthorizationCode
  | CreateTokenImplicitGrant => prototype.createTokenImplicitGrant
  | RefreshToken => prototype.refreshToken
  | InvalidateToken => prototype.invalidateToken
  end.

Definition is_get (op : operation) : bool :=
  match op with
  | GenerateAuthorizationCode | CreateTokenImplicitGrant => true
  | _ => false
  end.

Definition is_post (op : operation) : bool := negb (is_get op).

Definition is_http (p : option string) : bool :=
  match p with
  | Some s => String.eqb s "http:" || String.eqb s "https:"
  | None => false
  end.

(** The base URI names a protocol the adapter can speak. *)
Definition supported (self : adapter) : bool :=
  is_http (url_protocol (to_str (uri self))).

(** The body of a response as the completion handler has it at the end:
    the text of every chunk that [resp.read()] yields, over all the
    ['readable'] events, in order. *)
Definition flatten (l : list string) : string :=
  fold_right append EmptyString l.

Definition received (chunks : list (list string)) : string :=
  flatten (map Buffer_toString (List.concat chunks)).

(** The body as the backend wrote it: the bytes of all the chunks. *)
Definition raw_body (chunks : list (list string)) : string :=
  flatten (List.concat chunks).

(** Well-formed UTF-8 (table 3-7 of the Unicode standard), read byte by
    byte: [expected] tells how many bytes of the current character are
    still to come, and the range of the next one. *)
Fixpoint utf8_valid (expected : option (nat * Z * Z)) (l : list ascii)
  : bool :=
  match l with
  | [] =>
    match expected with
    | None => true
    | Some _ => false
    end
  | c :: r =>
    match expected with
    | None =>
      match utf8_lead_of c with
      | Single => utf8_valid None r
      | Lead more lower upper => utf8_valid (Some (more, lower, upper)) r
      | Stray => false
      end
    | Some (more, lower, upper) =>
      in_range lower upper c
      && match more with
         | O => utf8_valid None r
         | S more' => utf8_valid (Some (more', 128, 191)) r
         end
    end
  end.

(** Every chunk is well-formed UTF-8 on its own: no chunk ends within a
    character, and the body is text. *)
Definition well_formed (chunks : list (list string)) : bool :=
  forallb (forallb (fun d => utf8_valid None (chars d))) chunks.

(** A response with the given status and [Location] header whose stream
    delivers [chunks] and then ends, for a parameter object that the
    caller has left alone. *)
Definition answer (statusCode : Z) (location : value)
    (chunks : list (list string)) : network :=
  Responds (fun options => options)
    {| resp_statusCode := statusCode; resp_location := location;
              resp_events := (map OnReadable chunks ++ [OnEnd])%list |}.

(** ** The table of section 4.1 of the specification *)

Definition table_verb (op : operation) : string :=
  match op with
  | GenerateAuthorizationCode | CreateTokenImplicitGrant => "GET"
  | _ => "POST"
  end.

Definition table_path (op : operation) : string :=
  match op with
  | CreateTokenClientCredentials => "/tokentypes/client/tokens"
  | CreateTokenPasswordCredentials => "/tokentypes/password/tokens"
  | CreateTokenAuthorizationCode => "/tokentypes/authcode/tokens"
  | GenerateAuthorizationCode => "/tokentypes/authcode/authcodes"
  | CreateTokenImplicitGrant => "/tokentypes/implicit/tokens"
  | RefreshToken => "/tokentypes/all/refresh"
  | InvalidateToken => "/tokentypes/all/invalidate"
  end.

Definition table_grant_type (op : operation) : option string :=
  match op with
  | CreateTokenClientCredentials => Some "client_credentials"
  | CreateTokenPasswordCredentials => Some "password"
  | CreateTokenAuthorizationCode => Some "authorization_code"
  | RefreshToken => Some "refresh_token"
  | _ => None
  end.

(** The fixed [response_type] of the two GET operations. *)
Definition response_type (op : operation) : string :=
  match op with
  | CreateTokenImplicitGrant => "token"
  | _ => "code"
  end.

(** ** Vocabulary of the statements *)

(** A computation that hands nothing to the network. *)
Definition quiet {A : Type} (m : Eff A) : Prop := requests (trace m) = [].

(** The parameter object as the completion handler finds it: the four
    token operations have stored their grant type in it. *)
Definition recorded (op : operation) (options : Options) : Options :=
  match table_grant_type op with
  | Some g => set_grantType (PStr g) options
  | None => options
  end.

(** A parameter as [querystring.stringify] writes it. *)
Definition encoded (p : prim) : string :=
  querystring.escape (querystring.stringifyPrimitive p).

(** The property [k] of a parsed object, [undefined] when it has none. *)
Definition field (m : list (string * value)) (k : string) : value :=
  match obj_get k m with
  | Some x => x
  | None => undefined
  end.

(** The result object that [requestComplete] builds from the parsed
    object [m], once [parseInt] has made [expires_in] of its expires_in. *)
Definition token_result (m : list (string * value)) (options : Options)
    (expires_in : number) : value :=
  VObj [("access_token", field m "access_token");
        ("refresh_token", field m "refresh_token");
        ("token_type", VPrim (grantType options));
        ("scope", field m "scope");
        ("expires_in", VPrim (PNum expires_in))].

(** ** Vocabulary of the further properties *)

(** The completion handler of an operation: [getRequestComplete] for the
    two GET operations, [requestComplete] for the others. *)
Definition complete (op : operation) (cb : callback)
  : Options -> response -> Eff unit :=
  fun options resp =>
    if is_get op then getRequestComplete resp options cb
    else requestComplete resp options cb.

(** The events of a response that complete a call: ['end'] and
    ['error']. *)
Fixpoint completions (events : list event) : nat :=
  match events with
  | [] => O
  | OnReadable _ :: rest => completions rest
  | _ :: rest => S (completions rest)
  end.

(** What a computation ends in. *)
Definition result_of {A : Type} (m : Eff A) : outcome A := snd m.

(** A parsed value other than an object, [null] and [undefined]: reading
    a property of it gives [undefined]. *)
Definition no_properties (v : value) : bool :=
  match v with
  | VPrim (PBool _) | VPrim (PNum _) | VPrim (PStr _) | VArr _ => true
  | _ => false
  end.

(** ** Decoding, as the backend does it

    The inverses of the encodings the adapter applies, written here to
    state that what it sends can be read back. *)

(** Percent-decoding: [%XY] with two hexadecimal digits is the byte XY,
    every other character stands for itself. *)
Fixpoint unescape_chars (l : list ascii) : list ascii :=
  match l with
  | [] => []
  | c :: tl =>
    if Ascii.eqb c "%"%char then
      match tl with
      | a :: b :: r =>
        match digit_value 16 a, digit_value 16 b with
        | Some x, Some y => ascii_of_code (16 * x + y) :: unescape_chars r
        | _, _ => c :: unescape_chars tl
        end
      | _ => c :: unescape_chars tl
      end
    else c :: unescape_chars tl
  end.

(** The fields of a form body, which [&] separates. *)
Fixpoint form_fields (l : list ascii) : list (list ascii) :=
  match l with
  | [] => [[]]
  | c :: r =>
    if Ascii.eqb c "&"%char then [] :: form_fields r
    else
      match form_fields r with
      | f :: fs => (c :: f) :: fs
      | [] => [[c]]
      end
  end.

(** A field cut at its first [=]: the name, and the value if there is
    one. *)
Fixpoint cut_field (l : list ascii) : list ascii * list ascii :=
  match l with
  | [] => ([], [])
  | c :: r =>
    if Ascii.eqb c "="%char then ([], r)
    else let (k, v) := cut_field r in (c :: k, v)
  end.

(** A body of type application/x-www-form-urlencoded read back into its
    names and values. *)
Definition decode_form (s : string) : list (string * string) :=
  map (fun f => let (k, v) := cut_field f in
                (text (unescape_chars k), text (unescape_chars v)))
      (form_fields (chars s)).

(** Characters that mean nothing to a form body. *)
Definition plain_char (c : ascii) : bool :=
  negb (Ascii.eqb c "&"%char || Ascii.eqb c "="%char).

(** One field of [querystring.stringify], for a value that is a string,
    and a query object whose values are all strings. *)
Definition field_chars (kv : string * string) : list ascii :=
  (flat_map querystring.escape_char (chars (fst kv))
     ++ "="%char :: flat_map querystring.escape_char (chars (snd kv)))%list.

Definition strings (qs : list (string * string)) : list (string * prim) :=
  map (fun kv => (fst kv, PStr (snd kv))) qs.

(** An optional parameter that is a string: it counts when it is not
    empty. *)
Definition given (k v : string) : list (string * string) :=
  if nonempty v then [(k, v)] else [].

(** Parameter objects with awkward characters in them. *)
Definition awkward_credentials : Options :=
  {| clientId := PStr "id"; clientSecret := PStr "secret";
     scope := PStr "a b"; tokenLifetime := PUndef;
     username := PStr "x&admin=1"; password := PStr "50%=half";
     code := PUndef; redirectUri := PUndef; state := PUndef;
     refreshToken := PUndef; accessToken := PUndef; grantType := PUndef |}.

Definition awkward_redirect : Options :=
  {| clientId := PStr "id"; clientSecret := PUndef;
     scope := PStr EmptyString; tokenLifetime := PUndef;
     username := PUndef; password := PUndef; code := PUndef;
     redirectUri := PStr "https://app/cb?a=1&b=2"; state := PStr "s#1";
     refreshToken := PUndef; accessToken := PUndef; grantType := PUndef |}.

(** The decimal digits of a natural number, as a string. *)
Definition decimal (n : Z) : string := text (digits_of n).

(** ** Base64, read back *)

(** The place of a character in the base64 alphabet. *)
Fixpoint index_of (c : ascii) (s : string) (i : Z) : option Z :=
  match s with
  | EmptyString => None
  | String x r => if Ascii.eqb c x then Some i else index_of c r (i + 1)
  end.

Definition unb64 (c : ascii) : option Z := index_of c base64_alphabet 0.

(** Base64 decoding: four characters give three bytes, and padding
    ends the text. *)
Fixpoint base64_decode_chars (l : list ascii) : option (list Z) :=
  match l with
  | [] => Some []
  | c1 :: c2 :: c3 :: c4 :: r =>
    match unb64 c1, unb64 c2 with
    | Some i1, Some i2 =>
      let a := Z.lor (Z.shiftl i1 2) (Z.shiftr i2 4) in
      if Ascii.eqb c3 "="%char then
        if Ascii.eqb c4 "="%char then
          match r with [] => Some [a] | _ => None end
        else None
      else
        match unb64 c3 with
        | Some i3 =>
          let b := Z.lor (Z.shiftl (Z.land i2 15) 4) (Z.shiftr i3 2) in
          if Ascii.eqb c4 "="%char then
            match r with [] => Some [a; b] | _ => None end
          else
            match unb64 c4 with
            | Some i4 =>
              let c := Z.lor (Z.shiftl (Z.land i3 3) 6) i4 in
              option_map (fun t => a :: b :: c :: t) (base64_decode_chars r)
            | None => None
            end
        | None => None
        end
    | _, _ => None
    end
  | _ => None
  end.

Definition base64_decode (s : string) : option string :=
  option_map (fun l => text (map ascii_of_code l))
    (base64_decode_chars (chars s)).

(** All the bytes, and what holds of every two of them: it is checked
    by running through them. *)
Definition all_ascii : list ascii := map ascii_of_nat (seq 0 256).

(** The four sextets into which base64 cuts three bytes. *)
Definition sextet1 (x : ascii) : Z := Z.shiftr (ord x) 2.
Definition sextet2 (x y : ascii) : Z :=
  Z.lor (Z.shiftl (Z.land (ord x) 3) 4) (Z.shiftr (ord y) 4).
Definition sextet3 (y z : ascii) : Z :=
  Z.lor (Z.shiftl (Z.land (ord y) 15) 2) (Z.shiftr (ord z) 6).
Definition sextet4 (z : ascii) : Z := Z.land (ord z) 63.

Definition opt_eqb (o : option Z) (v : Z) : bool :=
  match o with Some w => w =? v | None => false end.

Definition sextet_ok (i : Z) : bool :=
  opt_eqb (unb64 (b64 i)) i && negb (Ascii.eqb (b64 i) "="%char).

Definition pair_ok (x y : ascii) : bool :=
  sextet_ok (sextet1 x) && sextet_ok (sextet2 x y)
  && sextet_ok (sextet3 x y) && sextet_ok (sextet4 x)
  && (Z.lor (Z.shiftl (sextet1 x) 2) (Z.shiftr (sextet2 x y) 4) =? ord x)
  && (Z.land (sextet2 x y) 15 =? Z.shiftr (ord y) 4)
  && (Z.shiftr (sextet3 x y) 2 =? Z.land (ord x) 15)
  && (Z.land (sextet3 x y) 3 =? Z.shiftr (ord y) 6)
  && (Z.lor (Z.shiftl (Z.shiftr (ord x) 4) 4) (Z.land (ord x) 15) =? ord x)
  && (Z.lor (Z.shiftl (Z.shiftr (ord x) 6) 6) (sextet4 x) =? ord x).

Record pair_facts (x y : ascii) : Prop := {
  pf_s1 : unb64 (b64 (sextet1 x)) = Some (sextet1 x);
  pf_s1' : Ascii.eqb (b64 (sextet1 x)) "="%char = false;
  pf_s2 : unb64 (b64 (sextet2 x y)) = Some (sextet2 x y);
  pf_s2' : Ascii.eqb (b64 (sextet2 x y)) "="%char = false;
  pf_s3 : unb64 (b64 (sextet3 x y)) = Some (sextet3 x y);
  pf_s3' : Ascii.eqb (b64 (sextet3 x y)) "="%char = false;
  pf_s4 : unb64 (b64 (sextet4 x)) = Some (sextet4 x);
  pf_s4' : Ascii.eqb (b64 (sextet4 x)) "="%char = false;
  pf_a : Z.lor (Z.shiftl (sextet1 x) 2) (Z.shiftr (sextet2 x y) 4) = ord x;
  pf_lo : Z.land (sextet2 x y) 15 = Z.shiftr (ord y) 4;
  pf_hi : Z.shiftr (sextet3 x y) 2 = Z.land (ord x) 15;
  pf_lo' : Z.land (sextet3 x y) 3 = Z.shiftr (ord y) 6;
  pf_b : Z.lor (Z.shiftl (Z.shiftr (ord x) 4) 4) (Z.land (ord x) 15) = ord x;
  pf_c : Z.lor (Z.shiftl (Z.shiftr (ord x) 6) 6) (sextet4 x) = ord x
}.

Definition zero_char : ascii := "000"%char.

(** ** Sample data *)

Definition sample_adapter : adapter :=
  {| uri := PStr "https://api.example.com/oauth"; key := PStr "K" |}.

Definition no_options : Options :=
  {| clientId := PUndef; clientSecret := PUndef; scope := PUndef;
     tokenLifetime := PUndef; username := PUndef; password := PUndef;
     code := PUndef; redirectUri := PUndef; state := PUndef;
     refreshToken := PUndef; accessToken := PUndef; grantType := PUndef |}.

Definition sample_options : Options :=
  {| clientId := PStr "id"; clientSecret := PStr "secret";
     scope := PStr "read write"; tokenLifetime := PNum (Dec 36 5);
     username := PStr "u"; password := PStr "p"; code := PStr "c";
     redirectUri := PStr "https://app/cb"; state := PUndef;
     refreshToken := PStr "RT"; accessToken := PStr "AT";
     grantType := PUndef |}.

(** The response body of section 8:
    an object with access_token T, refresh_token R, scope S and
    expires_in 3600 (a string). *)
Definition token_body : string :=
  "{" ++ quoted "access_token" ++ ":" ++ quoted "T" ++ ","
      ++ quoted "refresh_token" ++ ":" ++ quoted "R" ++ ","
      ++ quoted "scope" ++ ":" ++ quoted "S" ++ ","
      ++ quoted "expires_in" ++ ":" ++ quoted "3600" ++ "}".

Definition str (s : string) : value := VPrim (PStr s).

(** The two bytes of U+00E9 in UTF-8, C3 and A9, one to a chunk. *)
Definition split_character : list (list string) :=
  [[String "195"%char EmptyString]; [String "169"%char EmptyString]].

Definition returns : option js_error -> value -> bool := fun _ _ => false.
Definition always_throws : option js_error -> value -> bool := fun _ _ => true.

(** * Properties *)

(** ** Strings *)

Lemma append_assoc (a b c : string) : (a ++ b) ++ c = a ++ (b ++ c).
Proof. induction a as [|x a IH]; simpl; [reflexivity | now rewrite IH]. Qed.

Lemma append_empty_r (a : string) : a ++ EmptyString = a.
Proof. induction a as [|x a IH]; simpl; [reflexivity | now rewrite IH]. Qed.

Lemma chars_text (l : list ascii) : chars (text l) = l.
Proof. apply list_ascii_of_string_of_list_ascii. Qed.

Lemma text_chars (s : string) : text (chars s) = s.
Proof. apply string_of_list_ascii_of_string. Qed.

Lemma chars_append (a b : string) : chars (a ++ b) = (chars a ++ chars b)%list.
Proof.
  unfold chars. induction a as [|x a IH]; simpl; [reflexivity | now rewrite IH].
Qed.

(** ** The protocol depends on the base URI alone *)

Lemma is_space3_slash_2 (a c : ascii) : is_space3 a "/"%char c = false.
Proof. unfold is_space3. cbn. now rewrite !andb_false_r. Qed.

Lemma is_space3_slash_3 (a b : ascii) : is_space3 a b "/"%char = false.
Proof. unfold is_space3. cbn. now rewrite !andb_false_r. Qed.

Lemma trim_start_slash (x : list ascii) :
  trim_start ("/"%char :: x) = "/"%char :: x.
Proof. destruct x as [|b [|c x]]; reflexivity. Qed.

Lemma trim_start_app_slash (u x : list ascii) :
  trim_start (u ++ "/"%char :: x)%list = (trim_start u ++ "/"%char :: x)%list.
Proof.
  remember (length u) as n eqn:Hn.
  revert u Hn. induction n as [n IH] using lt_wf_ind. intros u Hn.
  destruct u as [|a u]; [apply trim_start_slash|].
  cbn [app trim_start].
  destruct (is_ascii_space a).
  { apply (IH (length u)); [subst n; simpl; lia | reflexivity]. }
  destruct u as [|b u]; cbn [app].
  { change (ord "/"%char =? 160) with false. rewrite andb_false_r.
    destruct x as [|c x]; [reflexivity|]. now rewrite is_space3_slash_2. }
  destruct ((ord a =? 194) && (ord b =? 160)).
  { apply (IH (length u)); [subst n; simpl; lia | reflexivity]. }
  destruct u as [|c u]; cbn [app].
  { now rewrite is_space3_slash_3. }
  destruct (is_space3 a b c); [|reflexivity].
  apply (IH (length u)); [subst n; simpl; lia | reflexivity].
Qed.

Lemma scan_protocol_app_slash (u x acc : list ascii) :
  scan_protocol (u ++ "/"%char :: x)%list acc = scan_protocol u acc.
Proof.
  revert acc. induction u as [|c u IH]; intros acc; [reflexivity|].
  cbn [app scan_protocol]. now destruct (is_scheme_char c).
Qed.

Lemma url_protocol_path (u p : string) :
  url_protocol (u ++ String "/" p) = url_protocol u.
Proof.
  unfold url_protocol. rewrite chars_append. cbn [chars list_ascii_of_string].
  now rewrite trim_start_app_slash, scan_protocol_app_slash.
Qed.

(** ** Traces *)

Lemma calls_sent_bind {A : Type} (r : request) (m : Eff A) :
  calls (trace (perform_effect (Sent r) ;; m)) = calls (trace m).
Proof. now destruct m as [t [a|x]]. Qed.

Lemma requests_sent_bind {A : Type} (r : request) (m : Eff A) :
  requests (trace (perform_effect (Sent r) ;; m)) = r :: requests (trace m).
Proof. now destruct m as [t [a|x]]. Qed.

Lemma requests_app (t u : list effect) :
  requests (t ++ u) = (requests t ++ requests u)%list.
Proof.
  induction t as [|[q|err result] t IH]; simpl;
    [reflexivity | now rewrite IH | exact IH].
Qed.

Lemma quiet_bind {A B : Type} (m : Eff A) (f : A -> Eff B) :
  quiet m -> (forall a, quiet (f a)) -> quiet (bind m f).
Proof.
  unfold quiet. destruct m as [t [a|x]]; simpl; intros Hm Hf; [|exact Hm].
  specialize (Hf a). destruct (f a) as [t' o]. simpl in *.
  now rewrite requests_app, Hm, Hf.
Qed.

Lemma quiet_try_catch {A : Type} (m : Eff A) (h : exn -> Eff A) :
  quiet m -> (forall x, quiet (h x)) -> quiet (try_catch m h).
Proof.
  unfold quiet. destruct m as [t [a|x]]; simpl; intros Hm Hh; [exact Hm|].
  specialize (Hh x). destruct (h x) as [t' o]. simpl in *.
  now rewrite requests_app, Hm, Hh.
Qed.

Lemma quiet_caller throws err result : quiet (caller throws err result).
Proof. reflexivity. Qed.

Lemma quiet_parse s : quiet (JSON_parse s).
Proof. unfold JSON_parse. now destruct (JSON.parse s). Qed.

Lemma quiet_get v k : quiet (get v k).
Proof.
  destruct v as [[| | | |]| |m]; try reflexivity.
  simpl. now destruct (obj_get k m).
Qed.

Lemma quiet_parseInt v : quiet (parseInt v).
Proof. unfold parseInt, ToString. now destruct (value_toString v). Qed.

Create HintDb quiet.
#[local] Hint Resolve quiet_caller quiet_parse quiet_get quiet_parseInt : quiet.

Lemma quiet_requestComplete_events statusCode options throws events respData :
  quiet (requestComplete_events statusCode options (caller throws) events respData).
Proof.
  revert respData.
  induction events as [|[available| |err] rest IH]; intros respData;
    cbn [requestComplete_events]; [reflexivity | apply IH | |].
  - apply quiet_bind; [|intros _; apply IH].
    destruct (statusCode >=? 300); [apply quiet_caller|].
    apply quiet_try_catch; [|intros _; apply quiet_caller].
    do 6 (apply quiet_bind; [solve [auto with quiet] | intros ?]).
    apply quiet_caller.
  - apply quiet_bind; [apply quiet_caller | intros _; apply IH].
Qed.

Lemma quiet_getRequestComplete_events statusCode location throws events respData :
  quiet (getRequestComplete_events statusCode location (caller throws) events respData).
Proof.
  revert respData.
  induction events as [|[available| |err] rest IH]; intros respData;
    cbn [getRequestComplete_events]; [reflexivity | apply IH | |].
  - apply quiet_bind; [|intros _; apply IH].
    destruct (negb (statusCode =? 302)); apply quiet_caller.
  - apply quiet_bind; [apply quiet_caller | intros _; apply IH].
Qed.

(** ** Reading the response *)

Lemma readResponse_flatten (available : list string) (data : string) :
  readResponse available data
  = data ++ flatten (map Buffer_toString available).
Proof.
  revert data. induction available as [|d rest IH]; intros data; simpl.
  - now rewrite append_empty_r.
  - now rewrite IH, append_assoc.
Qed.

(** Decoding leaves well-formed bytes as they are. *)
Lemma utf8_decode_valid (l : list ascii) :
  (utf8_valid None l = true -> utf8_decode Between l = l)
  /\ (forall more lower upper seen,
        utf8_valid (Some (more, lower, upper)) l = true ->
        utf8_decode (Within more lower upper seen) l = (rev seen ++ l)%list).
Proof.
  induction l as [|c r [IH0 IH1]]; split.
  - reflexivity.
  - discriminate.
  - cbn [utf8_valid utf8_decode utf8_step]. unfold utf8_begin.
    destruct (utf8_lead_of c) as [|more lower upper|]; intros H.
    + cbn. now rewrite IH0.
    + cbn [app]. now rewrite (IH1 _ _ _ [c] H).
    + discriminate H.
  - intros more lower upper seen.
    cbn [utf8_valid utf8_decode utf8_step].
    destruct (in_range lower upper c); [|discriminate].
    cbn [andb]. destruct more as [|more']; intros H.
    + rewrite (IH0 H). cbn [rev]. now rewrite <- app_assoc.
    + cbn [app]. rewrite (IH1 _ _ _ (c :: seen) H). cbn [rev].
      now rewrite <- app_assoc.
Qed.

Lemma Buffer_toString_valid (d : string) :
  utf8_valid None (chars d) = true -> Buffer_toString d = d.
Proof.
  intros H. unfold Buffer_toString.
  rewrite (proj1 (utf8_decode_valid (chars d)) H). apply text_chars.
Qed.

Lemma map_Buffer_toString_valid (l : list string) :
  forallb (fun d => utf8_valid None (chars d)) l = true ->
  map Buffer_toString l = l.
Proof.
  induction l as [|d l IH]; [reflexivity|].
  cbn [forallb map]. intros H. apply andb_prop in H. destruct H as [Hd Hl].
  now rewrite (Buffer_toString_valid d Hd), (IH Hl).
Qed.

(** When every chunk is well-formed, the handler has the body as it was
    written. *)
Lemma received_well_formed (chunks : list (list string)) :
  well_formed chunks = true -> received chunks = raw_body chunks.
Proof.
  unfold well_formed, received, raw_body. intros H. f_equal.
  induction chunks as [|available chunks IH]; [reflexivity|].
  cbn [forallb] in H. apply andb_prop in H. destruct H as [Ha Hc].
  cbn [List.concat]. rewrite map_app.
  now rewrite (map_Buffer_toString_valid available Ha), (IH Hc).
Qed.

Lemma flatten_app (l1 l2 : list string) :
  flatten (l1 ++ l2) = flatten l1 ++ flatten l2.
Proof.
  induction l1 as [|x l1 IH]; simpl; [reflexivity|].
  now rewrite IH, append_assoc.
Qed.

Lemma requestComplete_events_received statusCode options cb chunks data :
  requestComplete_events statusCode options cb
    (map OnReadable chunks ++ [OnEnd]) data
  = requestComplete_events statusCode options cb [OnEnd]
      (data ++ received chunks).
Proof.
  revert data. induction chunks as [|available chunks IH]; intros data.
  - unfold received. simpl. now rewrite append_empty_r.
  - cbn [map app requestComplete_events]. rewrite IH, readResponse_flatten.
    unfold received. cbn [List.concat].
    now rewrite map_app, flatten_app, append_assoc.
Qed.

Lemma getRequestComplete_events_received statusCode location cb chunks data :
  getRequestComplete_events statusCode location cb
    (map OnReadable chunks ++ [OnEnd]) data
  = getRequestComplete_events statusCode location cb [OnEnd]
      (data ++ received chunks).
Proof.
  revert data. induction chunks as [|available chunks IH]; intros data.
  - unfold received. simpl. now rewrite append_empty_r.
  - cbn [map app getRequestComplete_events]. rewrite IH, readResponse_flatten.
    unfold received. cbn [List.concat].
    now rewrite map_app, flatten_app, append_assoc.
Qed.

(** ** What the two request functions send *)

Lemma makeRequest_sent self verb p body_ options cb net :
  supported self = true ->
  exists r,
    makeRequest self verb (String "/" p) body_ options cb net
    = exchange r net options
        (fun options resp => requestComplete resp options cb) cb
    /\ url r = to_str (uri self) ++ String "/" p
    /\ method r = verb
    /\ obj_get "Authorization" (headers r)
       = Some (PStr (base64 (to_str (clientId options) ++ ":"
                               ++ to_str (clientSecret options))))
    /\ obj_get "x-DNA-Api-Key" (headers r) = Some (key self)
    /\ body r = (if nonempty body_ then Some body_ else None).
Proof.
  intros Hs. unfold supported, is_http in Hs.
  unfold makeRequest, protocol_is. cbn [protocol].
  rewrite url_protocol_path.
  destruct (url_protocol (to_str (uri self))) as [s|]; [|discriminate Hs].
  eexists. split.
  { destruct (String.eqb s "http:"); [reflexivity|].
    cbn [orb] in Hs. rewrite Hs. reflexivity. }
  cbn [url method headers body].
  destruct (truthy (tokenLifetime options)), (nonempty body_);
    repeat split; reflexivity.
Qed.

Lemma makeGetRequest_sent self p qs options cb net :
  supported self = true ->
  exists r,
    makeGetRequest self (String "/" p) qs options cb net
    = exchange r net options
        (fun options resp => getRequestComplete resp options cb) cb
    /\ url r = to_str (uri self) ++ String "/" p ++ "?" ++ qs
    /\ method r = "GET"
    /\ headers r = [("x-DNA-Api-Key", key self)]
    /\ body r = None.
Proof.
  intros Hs. unfold supported, is_http in Hs.
  unfold makeGetRequest, protocol_is. cbn [protocol].
  change (String "/" p ++ "?" ++ qs) with (String "/" (p ++ "?" ++ qs)).
  rewrite url_protocol_path.
  destruct (url_protocol (to_str (uri self))) as [s|]; [|discriminate Hs].
  eexists. split.
  { destruct (String.eqb s "http:"); [reflexivity|].
    cbn [orb] in Hs. rewrite Hs. reflexivity. }
  repeat split; reflexivity.
Qed.

(** Whatever the network does, a call that reaches it sends one request. *)
Lemma one_request r net options onResponse throws :
  (forall o resp, quiet (onResponse o resp)) ->
  requests (trace (exchange r net options onResponse (caller throws))) = [r].
Proof.
  intros Hq. unfold exchange. rewrite requests_sent_bind. f_equal.
  destruct net as [err|meanwhile resp]; [reflexivity | apply Hq].
Qed.

Lemma one_request_post r options throws net :
  requests (trace (exchange r net options
                     (fun o resp => requestComplete resp o (caller throws))
                     (caller throws))) = [r].
Proof.
  apply one_request. intros o resp. apply quiet_requestComplete_events.
Qed.

Lemma one_request_get r options throws net :
  requests (trace (exchange r net options
                     (fun o resp => getRequestComplete resp o (caller throws))
                     (caller throws))) = [r].
Proof.
  apply one_request. intros o resp. apply quiet_getRequestComplete_events.
Qed.

Lemma calls_exchange r meanwhile resp options onResponse cb :
  calls (trace (exchange r (Responds meanwhile resp) options onResponse cb))
  = calls (trace (onResponse (meanwhile options) resp)).
Proof. unfold exchange. apply calls_sent_bind. Qed.

(** Unfolds the operation at hand down to its request function. *)
Ltac open_operation :=
  cbn [run];
  unfold prototype.createTokenClientCredentials,
    prototype.createTokenPasswordCredentials,
    prototype.createTokenAuthorizationCode,
    prototype.generateAuthorizationCode,
    prototype.createTokenImplicitGrant,
    prototype.refreshToken, prototype.invalidateToken.

(** Names the request [r] that the request function in the goal sends,
    with what [makeRequest_sent] or [makeGetRequest_sent] says of it. *)
Ltac sent Hs cb :=
  lazymatch goal with
  | |- context [makeRequest ?s ?v (String "/" ?p) ?b ?o _ ?n] =>
    destruct (makeRequest_sent s v p b o cb n Hs)
      as (r & Hrun & Hhref & Hmeth & Hauth & Hkey & Hbody)
  | |- context [makeGetRequest ?s (String "/" ?p) ?q ?o _ ?n] =>
    destruct (makeGetRequest_sent s p q o cb n Hs)
      as (r & Hrun & Hhref & Hmeth & Hhead & Hbody)
  end.

(** Replaces the run in the goal, seen through [f], by the exchange. *)
Ltac by_exchange f H :=
  etransitivity; [exact (f_equal f H)|].

(** The operation by operation view of what is sent: the request, and
    for a POST the object [qs] that was encoded into its body. *)
Lemma post_sends op self options throws net :
  is_post op = true -> supported self = true ->
  exists r,
    requests (trace (run op self options (caller throws) net)) = [r]
    /\ url r = to_str (uri self) ++ table_path op
    /\ method r = "POST"
    /\ obj_get "Authorization" (headers r)
       = Some (PStr (base64 (to_str (clientId options) ++ ":"
                               ++ to_str (clientSecret options))))
    /\ obj_get "x-DNA-Api-Key" (headers r) = Some (key self)
    /\ exists qs,
         body r = Some (querystring.stringify qs)
         /\ match op with
            | InvalidateToken =>
              qs = if truthy (refreshToken options)
                   then [("token", refreshToken options);
                         ("token_type_hint", PStr "refresh_token")]
                   else [("token", accessToken options);
                         ("token_type_hint", PStr "access_token")]
            | _ =>
              exists g more, table_grant_type op = Some g
                             /\ qs = ("grant_type", PStr g) :: more
            end.
Proof.
  intros Hop Hs.
  destruct op; try discriminate Hop; open_operation; sent Hs (caller throws);
    exists r;
    (split; [by_exchange (fun m : Eff unit => requests (trace m)) Hrun;
             apply one_request_post|]);
    (split; [exact Hhref|]); (split; [exact Hmeth|]);
    (split; [exact Hauth|]); (split; [exact Hkey|]);
    rewrite Hbody.
  - destruct (truthy (scope options)); eexists; (split; [reflexivity|]);
      do 2 eexists; split; reflexivity.
  - destruct (truthy (scope options)); eexists; (split; [reflexivity|]);
      do 2 eexists; split; reflexivity.
  - destruct (truthy (redirectUri options)), (truthy (clientId options));
      eexists; (split; [reflexivity|]); do 2 eexists; split; reflexivity.
  - destruct (truthy (scope options)); eexists; (split; [reflexivity|]);
      do 2 eexists; split; reflexivity.
  - destruct (truthy (refreshToken options)); eexists; split; reflexivity.
Qed.

Lemma get_sends op self options throws net :
  is_get op = true -> supported self = true ->
  exists r more,
    requests (trace (run op self options (caller throws) net)) = [r]
    /\ url r = to_str (uri self) ++ table_path op ++ "?"
                ++ querystring.stringify
                     (("response_type", PStr (response_type op))
                      :: ("client_id", clientId options) :: more)
    /\ method r = "GET"
    /\ headers r = [("x-DNA-Api-Key", key self)]
    /\ body r = None.
Proof.
  intros Hop Hs.
  destruct op; try discriminate Hop; open_operation; sent Hs (caller throws);
    exists r;
    destruct (truthy (redirectUri options)), (truthy (scope options)),
      (truthy (state options));
    eexists;
    (split; [by_exchange (fun m : Eff unit => requests (trace m)) Hrun;
             apply one_request_get|]);
    (split; [exact Hhref|]); (split; [exact Hmeth|]); (split; [exact Hhead|]);
    exact Hbody.
Qed.

(** ** What the completion handlers tell the caller *)

Lemma post_calls op self options throws statusCode location chunks :
  is_post op = true -> supported self = true ->
  calls (trace (run op self options (caller throws)
                  (answer statusCode location chunks)))
  = calls (trace (requestComplete_events statusCode (recorded op options)
                    (caller throws) [OnEnd] (received chunks))).
Proof.
  intros Hop Hs.
  destruct op; try discriminate Hop; open_operation; sent Hs (caller throws);
    by_exchange (fun m : Eff unit => calls (trace m)) Hrun;
    unfold answer; rewrite calls_exchange; unfold requestComplete;
    cbn [resp_statusCode resp_events];
    now rewrite requestComplete_events_received.
Qed.

Lemma get_calls op self options throws statusCode location chunks :
  is_get op = true -> supported self = true ->
  calls (trace (run op self options (caller throws)
                  (answer statusCode location chunks)))
  = calls (trace (getRequestComplete_events statusCode location
                    (caller throws) [OnEnd] (received chunks))).
Proof.
  intros Hop Hs.
  destruct op; try discriminate Hop; open_operation; sent Hs (caller throws);
    by_exchange (fun m : Eff unit => calls (trace m)) Hrun;
    unfold answer; rewrite calls_exchange; unfold getRequestComplete;
    cbn [resp_statusCode resp_location resp_events];
    now rewrite getRequestComplete_events_received.
Qed.

Lemma geb_300_false (statusCode : Z) :
  statusCode < 300 -> (statusCode >=? 300) = false.
Proof. intros H. rewrite Z.geb_leb. now apply Z.leb_gt. Qed.

Lemma geb_300_true (statusCode : Z) :
  statusCode >= 300 -> (statusCode >=? 300) = true.
Proof. intros H. rewrite Z.geb_leb. apply Z.leb_le. lia. Qed.

Lemma bind_pure {A B : Type} (a : A) (f : A -> Eff B) : bind (pure a) f = f a.
Proof. unfold bind, pure. now destruct (f a). Qed.

Lemma get_object (m : list (string * value)) (k : string) :
  get (VObj m) k = pure (field m k).
Proof. unfold get, field. now destruct (obj_get k m). Qed.

(** The three ways the ['end'] handler of a POST goes. *)
Lemma post_end_error statusCode options throws respData :
  statusCode >= 300 ->
  calls (trace (requestComplete_events statusCode options (caller throws)
                  [OnEnd] respData))
  = [(Some {| err_message := respData; err_statusCode := Some statusCode |},
      undefined)].
Proof.
  intros H. cbn [requestComplete_events]. rewrite (geb_300_true _ H).
  cbn. now destruct (throws _ _).
Qed.

Lemma post_end_not_json statusCode options throws respData :
  statusCode < 300 -> JSON.parse respData = None ->
  calls (trace (requestComplete_events statusCode options (caller throws)
                  [OnEnd] respData))
  = [(None, undefined)].
Proof.
  intros H Hp. cbn [requestComplete_events]. rewrite (geb_300_false _ H).
  unfold JSON_parse. rewrite Hp. cbn. now destruct (throws _ _).
Qed.

Lemma post_end_object statusCode options throws respData m s :
  statusCode < 300 -> JSON.parse respData = Some (VObj m) ->
  value_toString (field m "expires_in") = Some s ->
  calls (trace (requestComplete_events statusCode options (caller throws)
                  [OnEnd] respData))
  = (None, token_result m options (parseInt_string s))
      :: (if throws None (token_result m options (parseInt_string s))
          then [(None, undefined)] else []).
Proof.
  intros H Hp Hs. cbn [requestComplete_events]. rewrite (geb_300_false _ H).
  unfold JSON_parse. rewrite Hp, bind_pure, !get_object.
  rewrite !bind_pure. unfold parseInt, ToString. rewrite Hs, !bind_pure.
  fold (token_result m options (parseInt_string s)).
  unfold caller.
  destruct (throws None (token_result m options (parseInt_string s))); cbn;
    [now destruct (throws None undefined) | reflexivity].
Qed.

(** The fourth: the expires_in of the answer cannot be made a string, and
    the TypeError of [parseInt] is caught with the errors of
    [JSON.parse]. *)
Lemma post_end_unconvertible statusCode options throws respData m :
  statusCode < 300 -> JSON.parse respData = Some (VObj m) ->
  value_toString (field m "expires_in") = None ->
  calls (trace (requestComplete_events statusCode options (caller throws)
                  [OnEnd] respData))
  = [(None, undefined)].
Proof.
  intros H Hp Hs. cbn [requestComplete_events]. rewrite (geb_300_false _ H).
  unfold JSON_parse. rewrite Hp, bind_pure, !get_object.
  rewrite !bind_pure. unfold parseInt, ToString. rewrite Hs.
  cbn. now destruct (throws None undefined).
Qed.

Lemma get_end statusCode location throws respData :
  calls (trace (getRequestComplete_events statusCode location (caller throws)
                  [OnEnd] respData))
  = [if statusCode =? 302 then (None, location)
     else (Some {| err_message := respData; err_statusCode := Some statusCode |},
           undefined)].
Proof.
  cbn [getRequestComplete_events].
  destruct (statusCode =? 302); cbn; now destruct (throws _ _).
Qed.

Lemma stringify_cons k v more :
  querystring.stringify ((k, v) :: more)
  = (querystring.escape k ++ "="
       ++ querystring.escape (querystring.stringifyPrimitive v))
      ++ match more with
         | [] => EmptyString
         | _ => "&" ++ querystring.stringify more
         end.
Proof.
  destruct more as [|kv more]; unfold querystring.stringify; cbn [map join fst snd].
  - now rewrite append_empty_r.
  - reflexivity.
Qed.

(** ** Where the callback runs once

    With a base URI of another protocol nothing is sent and the callback
    receives the error at once; and a callback that returns is called
    once, however the exchange ends. *)

(** X1. With a base URI whose protocol is neither http nor https, every
    operation sends nothing and calls the callback at once, a single time,
    with an Error whose message is Unsupported protocol followed by the
    protocol found (null when the URI names none) and which has no status
    code. *)
Lemma unsupported_protocol op self options throws net :
  supported self = false ->
  trace (run op self options (caller throws) net)
  = [Called (Some (Error ("Unsupported protocol "
                            ++ protocol_text (url_protocol (to_str (uri self))))))
       undefined].
Proof.
  intros Hs. unfold supported, is_http in Hs.
  destruct op; open_operation;
    unfold makeRequest, makeGetRequest, protocol_is; cbn [protocol];
    match goal with
    | |- context [url_protocol (?u ++ String "/" ?p ++ "?" ++ ?q)] =>
      change (String "/" p ++ "?" ++ q) with (String "/" (p ++ "?" ++ q))
    | _ => idtac
    end;
    rewrite url_protocol_path;
    (destruct (url_protocol (to_str (uri self))) as [s|]; [|reflexivity]);
    apply orb_false_elim in Hs as [H1 H2]; rewrite H1, H2; reflexivity.
Qed.

Lemma post_end_once statusCode options respData :
  length (calls (trace (requestComplete_events statusCode options
                          (caller returns) [OnEnd] respData))) = 1%nat.
Proof.
  cbn [requestComplete_events].
  destruct (statusCode >=? 300); [reflexivity|].
  unfold JSON_parse. destruct (JSON.parse respData) as [v|]; [|reflexivity].
  rewrite bind_pure.
  destruct v as [[| | | |]| |m]; try reflexivity.
  rewrite !get_object, !bind_pure. unfold parseInt, ToString.
  now destruct (value_toString (field m "expires_in")).
Qed.

Lemma returning_callback_is_called_once op self options net :
  supported self = true ->
  (exists err, net = RequestError err)
  \/ (exists statusCode location chunks,
        net = answer statusCode location chunks) ->
  length (calls (trace (run op self options (caller returns) net))) = 1%nat.
Proof.
  intros Hs [[err ->]|(statusCode & location & chunks & ->)].
  - destruct op; open_operation; sent Hs (caller returns);
      by_exchange (fun m : Eff unit => length (calls (trace m))) Hrun;
      reflexivity.
  - destruct (is_get op) eqn:Hop.
    + rewrite (get_calls _ _ _ _ _ _ _ Hop Hs), get_end. reflexivity.
    + rewrite (post_calls op _ _ _ _ _ _); [apply post_end_once| |exact Hs].
      unfold is_post. now rewrite Hop.
Qed.

(** ** The parameter object is shared

    The grant type is read from the parameter object when the response
    ends.  A caller that hands the same object to [refreshToken] before
    its client-credentials call is answered finds refresh_token in the
    result of that call. *)
Lemma token_type_is_read_at_completion :
  calls (trace (prototype.createTokenClientCredentials
                  sample_adapter sample_options (caller returns)
                  (Responds (set_grantType (PStr "refresh_token"))
                     {| resp_statusCode := 200; resp_location := undefined;
                        resp_events := [OnReadable [token_body]; OnEnd] |})))
  = [(None,
      VObj [("access_token", str "T");
            ("refresh_token", str "R");
            ("token_type", str "refresh_token");
            ("scope", str "S");
            ("expires_in", VPrim (PNum (Dec 3600 0)))])].
Proof. vm_compute. reflexivity. Qed.

(** * The claims *)

(** C1, as the code has it.  A GET operation (generateAuthorizationCode,
    createTokenImplicitGrant) succeeds exactly when the status of the
    response is 302.  The callback then receives the value of the Location
    header, whatever the body holds; on any other status, 200 included, it
    receives an error that carries the status code and has as its message
    the text that the handler has made of the body, each chunk decoded on
    its own.  That text is the response body itself whenever every chunk
    is well-formed UTF-8. *)
Theorem get_succeeds_iff_302 op self options throws statusCode location chunks :
  is_get op = true -> supported self = true ->
  let told := calls (trace (run op self options (caller throws)
                              (answer statusCode location chunks))) in
  (statusCode = 302 -> told = [(None, location)])
  /\ (statusCode <> 302 ->
      told = [(Some {| err_message := received chunks;
                       err_statusCode := Some statusCode |}, undefined)])
  /\ (statusCode <> 302 -> well_formed chunks = true ->
      told = [(Some {| err_message := raw_body chunks;
                       err_statusCode := Some statusCode |}, undefined)])
  /\ ((exists result, told = [(None, result)]) <-> statusCode = 302).
Proof.
  intros Hop Hs told. subst told.
  rewrite (get_calls _ _ _ _ _ _ _ Hop Hs), get_end.
  destruct (Z.eqb_spec statusCode 302) as [E|E].
  - split; [reflexivity|]. split; [contradiction|]. split; [contradiction|].
    split; [intros _; exact E | intros _; now exists location].
  - split; [contradiction|]. split; [reflexivity|].
    split; [intros _ Hw; now rewrite (received_well_formed chunks Hw)|].
    split; [intros [result H]; discriminate H | contradiction].
Qed.

(** The claim as the specification words it, with the response body as
    the message, fails when a chunk ends within a character: of the two
    bytes of an e with acute accent, one to a chunk, the message keeps
    neither. *)
Lemma get_message_counterexample :
  is_get GenerateAuthorizationCode = true
  /\ supported sample_adapter = true
  /\ calls (trace (run GenerateAuthorizationCode sample_adapter sample_options
                     (caller returns) (answer 200 undefined split_character)))
     <> [(Some {| err_message := raw_body split_character;
                  err_statusCode := Some 200 |}, undefined)].
Proof.
  split; [reflexivity|]. split; [reflexivity|].
  vm_compute. intros H. discriminate H.
Qed.

Lemma get_succeeds_iff_302_witness :
  is_get GenerateAuthorizationCode = true
  /\ supported sample_adapter = true
  /\ calls (trace (run GenerateAuthorizationCode sample_adapter sample_options
                     (caller returns)
                     (answer 302 (str "https://app/callback?code=abc")
                        [["<html>"; "moved"]; ["</html>"]])))
     = [(None, str "https://app/callback?code=abc")].
Proof.
  split; [reflexivity|]. split; [reflexivity|].
  refine (proj1 (get_succeeds_iff_302 GenerateAuthorizationCode sample_adapter
                   sample_options returns 302 _ _ _ _) _); reflexivity.
Defined.

(** C2, as the code has it.  For a client-credentials call whose response
    has a status below 300 and the body of section 8, the callback receives
    the object with the properties access_token T, refresh_token R,
    token_type client_credentials, scope S and expires_in 3600 (the
    number): the properties keep the names of the wire format.  The
    token_type is the grant type the operation stored in the parameter
    object at the request, whatever object the backend answers with,
    provided that [parseInt] can make a string of its expires_in (it
    cannot when that is an object with a property toString of its own,
    and the callback then gets no result object at all). *)
Theorem client_credentials_result self options throws statusCode location chunks :
  supported self = true -> statusCode < 300 ->
  let told := calls (trace (prototype.createTokenClientCredentials self options
                              (caller throws)
                              (answer statusCode location chunks))) in
  (received chunks = token_body ->
   hd_error told
   = Some (None,
           VObj [("access_token", str "T");
                 ("refresh_token", str "R");
                 ("token_type", str "client_credentials");
                 ("scope", str "S");
                 ("expires_in", VPrim (PNum (Dec 3600 0)))]))
  /\ (forall m s, JSON.parse (received chunks) = Some (VObj m) ->
      value_toString (field m "expires_in") = Some s ->
      exists result,
        hd_error told = Some (None, VObj result)
        /\ obj_get "token_type" result = Some (str "client_credentials")).
Proof.
  intros Hs Hlt told. subst told.
  change (prototype.createTokenClientCredentials self options)
    with (run CreateTokenClientCredentials self options).
  rewrite (post_calls CreateTokenClientCredentials _ _ _ _ _ _ eq_refl Hs).
  split.
  - intros Hbody.
    assert (Hp : JSON.parse (received chunks)
                 = Some (VObj [("access_token", str "T");
                               ("refresh_token", str "R");
                               ("scope", str "S");
                               ("expires_in", str "3600")]))
      by (rewrite Hbody; vm_compute; reflexivity).
    rewrite (post_end_object _ _ _ _ _ "3600" Hlt Hp eq_refl). reflexivity.
  - intros m s Hp Hstr. rewrite (post_end_object _ _ _ _ _ _ Hlt Hp Hstr).
    eexists. split; reflexivity.
Qed.

Lemma client_credentials_result_witness :
  supported sample_adapter = true
  /\ 200 < 300
  /\ received [[token_body]] = token_body
  /\ hd_error (calls (trace (prototype.createTokenClientCredentials
                               sample_adapter sample_options (caller returns)
                               (answer 200 undefined [[token_body]]))))
     = Some (None,
             VObj [("access_token", str "T");
                   ("refresh_token", str "R");
                   ("token_type", str "client_credentials");
                   ("scope", str "S");
                   ("expires_in", VPrim (PNum (Dec 3600 0)))]).
Proof.
  split; [reflexivity|]. split; [lia|]. split; [reflexivity|].
  refine (proj1 (client_credentials_result sample_adapter sample_options
                   returns 200 undefined [[token_body]] _ _) _);
    [reflexivity | lia | reflexivity].
Defined.

(** C2, as the specification words it: the result would be the object with
    the properties accessToken, refreshToken, tokenType, scope and
    expiresIn.  The callback does not receive that object. *)
Lemma camel_case_result_counterexample :
  calls (trace (prototype.createTokenClientCredentials
                  sample_adapter sample_options (caller returns)
                  (answer 200 undefined [[token_body]])))
  <> [(None,
       VObj [("accessToken", str "T");
             ("refreshToken", str "R");
             ("tokenType", str "client_credentials");
             ("scope", str "S");
             ("expiresIn", VPrim (PNum (Dec 3600 0)))])].
Proof. vm_compute. intros H. discriminate H. Qed.

(** C3. For every POST operation, a response whose status is below 300 and
    whose body is not JSON makes the callback run as a success without a
    result: no error is reported. *)
Theorem post_non_json_is_empty_success op self options throws statusCode
    location chunks :
  is_post op = true -> supported self = true ->
  statusCode < 300 -> JSON.parse (received chunks) = None ->
  calls (trace (run op self options (caller throws)
                  (answer statusCode location chunks)))
  = [(None, undefined)].
Proof.
  intros Hop Hs Hlt Hp.
  rewrite (post_calls _ _ _ _ _ _ _ Hop Hs).
  now apply post_end_not_json.
Qed.

Lemma post_non_json_is_empty_success_witness :
  is_post InvalidateToken = true
  /\ supported sample_adapter = true
  /\ 200 < 300
  /\ JSON.parse (received [["OK"]]) = None
  /\ calls (trace (run InvalidateToken sample_adapter sample_options
                     (caller returns) (answer 200 undefined [["OK"]])))
     = [(None, undefined)].
Proof.
  split; [reflexivity|]. split; [reflexivity|]. split; [lia|].
  split; [reflexivity|].
  apply (post_non_json_is_empty_success InvalidateToken sample_adapter
           sample_options returns 200 undefined [["OK"]]);
    [reflexivity | reflexivity | lia | reflexivity].
Defined.

(** C4, as the code has it.  For every POST operation, a response whose
    status is 300 or more makes the callback receive an error whose
    statusCode is that status and whose message is the text that the
    handler has made of the body, each chunk decoded on its own, and no
    result.  That text is the response body itself whenever every chunk
    is well-formed UTF-8. *)
Theorem post_error_status op self options throws statusCode location chunks :
  is_post op = true -> supported self = true -> statusCode >= 300 ->
  let told := calls (trace (run op self options (caller throws)
                              (answer statusCode location chunks))) in
  told = [(Some {| err_message := received chunks;
                   err_statusCode := Some statusCode |}, undefined)]
  /\ (well_formed chunks = true ->
      told = [(Some {| err_message := raw_body chunks;
                       err_statusCode := Some statusCode |}, undefined)]).
Proof.
  intros Hop Hs Hge told. subst told.
  rewrite (post_calls _ _ _ _ _ _ _ Hop Hs).
  rewrite (post_end_error _ _ _ _ Hge).
  split; [reflexivity|].
  intros Hw. now rewrite (received_well_formed chunks Hw).
Qed.

Lemma post_error_status_witness :
  is_post CreateTokenPasswordCredentials = true
  /\ supported sample_adapter = true
  /\ 400 >= 300
  /\ well_formed [["bad_"]; ["request"]] = true
  /\ calls (trace (run CreateTokenPasswordCredentials sample_adapter
                     sample_options (caller returns)
                     (answer 400 undefined [["bad_"]; ["request"]])))
     = [(Some {| err_message := "bad_request"; err_statusCode := Some 400 |},
         undefined)].
Proof.
  split; [reflexivity|]. split; [reflexivity|]. split; [lia|].
  split; [reflexivity|].
  refine (proj2 (post_error_status CreateTokenPasswordCredentials
                   sample_adapter sample_options returns 400 undefined
                   [["bad_"]; ["request"]] _ _ _) _);
    [reflexivity | reflexivity | lia | reflexivity].
Defined.

(** The claim as the specification words it, with the response body as
    the message, fails when a chunk ends within a character: of the two
    bytes of an e with acute accent, one to a chunk, the message keeps
    neither. *)
Lemma post_message_counterexample :
  is_post CreateTokenPasswordCredentials = true
  /\ supported sample_adapter = true
  /\ 400 >= 300
  /\ calls (trace (run CreateTokenPasswordCredentials sample_adapter
                     sample_options (caller returns)
                     (answer 400 undefined split_character)))
     <> [(Some {| err_message := raw_body split_character;
                  err_statusCode := Some 400 |}, undefined)].
Proof.
  split; [reflexivity|]. split; [reflexivity|]. split; [lia|].
  vm_compute. intros H. discriminate H.
Qed.

(** C5. Each of the seven operations, whatever optional parameters it is
    given, sends one request with the verb of the table of section 4.1 to
    the base URI followed by the path of the table (and, for a GET, by the
    query string); the body of the four token operations starts with
    grant_type set to the fixed value of the operation. *)
Theorem request_follows_table op self options throws net :
  supported self = true ->
  exists r qs,
    requests (trace (run op self options (caller throws) net)) = [r]
    /\ method r = table_verb op
    /\ url r = to_str (uri self) ++ table_path op
                ++ (if is_get op then "?" ++ qs else EmptyString)
    /\ forall g, table_grant_type op = Some g ->
         exists rest,
           body r = Some ("grant_type=" ++ g ++ rest)
           /\ (rest = EmptyString \/ exists more, rest = "&" ++ more).
Proof.
  intros Hs. destruct (is_get op) eqn:Hop.
  - destruct (get_sends op self options throws net Hop Hs)
      as (r & more & Hreq & Hhref & Hmeth & _).
    exists r. eexists. split; [exact Hreq|].
    split; [destruct op; try discriminate Hop; exact Hmeth|].
    split; [exact Hhref|].
    intros g Hg. destruct op; discriminate.
  - assert (Hpost : is_post op = true) by (unfold is_post; now rewrite Hop).
    destruct (post_sends op self options throws net Hpost Hs)
      as (r & Hreq & Hhref & Hmeth & _ & _ & qs & Hbody & Hqs).
    exists r, EmptyString. split; [exact Hreq|].
    split; [destruct op; try discriminate Hop; exact Hmeth|].
    split; [rewrite Hhref; now rewrite append_empty_r|].
    intros g Hg. rewrite Hbody.
    destruct op; try discriminate Hop; try discriminate Hg;
      destruct Hqs as (g' & more & Hg' & ->);
      rewrite Hg in Hg'; injection Hg' as <-; injection Hg as <-;
      rewrite stringify_cons; eexists;
      (split; [reflexivity|]);
      (destruct more; [now left | right; eexists; reflexivity]).
Qed.

Lemma request_follows_table_witness :
  supported sample_adapter = true
  /\ exists r qs,
       requests (trace (run RefreshToken sample_adapter no_options
                          (caller returns) (RequestError (Error "reset"))))
       = [r]
       /\ method r = "POST"
       /\ url r = "https://api.example.com/oauth" ++ "/tokentypes/all/refresh"
                   ++ (if is_get RefreshToken then "?" ++ qs else EmptyString)
       /\ forall g, table_grant_type RefreshToken = Some g ->
            exists rest,
              body r = Some ("grant_type=" ++ g ++ rest)
              /\ (rest = EmptyString \/ exists more, rest = "&" ++ more).
Proof.
  split; [reflexivity|].
  apply (request_follows_table RefreshToken sample_adapter no_options returns
           (RequestError (Error "reset"))).
  reflexivity.
Defined.

(** C6. A POST operation sends an Authorization header whose value is the
    base64 form of clientId:clientSecret and nothing else (no scheme name
    before it), and the x-DNA-Api-Key header with the key of the adapter;
    a GET operation sends the x-DNA-Api-Key header alone, so no
    Authorization header. *)
Theorem request_headers op self options throws net :
  supported self = true ->
  exists r,
    requests (trace (run op self options (caller throws) net)) = [r]
    /\ obj_get "x-DNA-Api-Key" (headers r) = Some (key self)
    /\ if is_get op
       then headers r = [("x-DNA-Api-Key", key self)]
            /\ obj_get "Authorization" (headers r) = None
       else obj_get "Authorization" (headers r)
            = Some (PStr (base64 (to_str (clientId options) ++ ":"
                                    ++ to_str (clientSecret options)))).
Proof.
  intros Hs. destruct (is_get op) eqn:Hop.
  - destruct (get_sends op self options throws net Hop Hs)
      as (r & more & Hreq & _ & _ & Hhead & _).
    exists r. split; [exact Hreq|]. rewrite Hhead. repeat split.
  - assert (Hpost : is_post op = true) by (unfold is_post; now rewrite Hop).
    destruct (post_sends op self options throws net Hpost Hs)
      as (r & Hreq & _ & _ & Hauth & Hkey & _).
    exists r. repeat split; assumption.
Qed.

Lemma request_headers_witness :
  supported sample_adapter = true
  /\ exists r,
       requests (trace (run CreateTokenClientCredentials sample_adapter
                          sample_options (caller returns)
                          (answer 200 undefined [])))
       = [r]
       /\ obj_get "x-DNA-Api-Key" (headers r) = Some (PStr "K")
       /\ obj_get "Authorization" (headers r) = Some (PStr "aWQ6c2VjcmV0").
Proof.
  split; [reflexivity|].
  destruct (request_headers CreateTokenClientCredentials sample_adapter
              sample_options returns (answer 200 undefined []) eq_refl)
    as (r & Hreq & Hkey & Hauth).
  exists r. repeat split; assumption.
Defined.

(** C7. In the invalidate-token operation a refreshToken that is supplied
    wins: the body is built from it alone and the accessToken plays no
    part; without a refreshToken the accessToken is used. *)
Theorem invalidate_prefers_refreshToken self options throws net :
  supported self = true ->
  exists r,
    requests (trace (prototype.invalidateToken self options (caller throws) net))
    = [r]
    /\ body r
       = Some (if truthy (refreshToken options)
               then "token=" ++ encoded (refreshToken options)
                      ++ "&token_type_hint=refresh_token"
               else "token=" ++ encoded (accessToken options)
                      ++ "&token_type_hint=access_token").
Proof.
  intros Hs.
  destruct (post_sends InvalidateToken self options throws net eq_refl Hs)
    as (r & Hreq & _ & _ & _ & _ & qs & Hbody & ->).
  exists r. split; [exact Hreq|]. rewrite Hbody.
  destruct (truthy (refreshToken options)); reflexivity.
Qed.

Lemma invalidate_prefers_refreshToken_witness :
  supported sample_adapter = true
  /\ exists r,
       requests (trace (prototype.invalidateToken sample_adapter sample_options
                          (caller returns) (answer 200 undefined [])))
       = [r]
       /\ body r = Some "token=RT&token_type_hint=refresh_token".
Proof.
  split; [reflexivity|].
  apply (invalidate_prefers_refreshToken sample_adapter sample_options returns
           (answer 200 undefined [])).
  reflexivity.
Defined.

(** C8, at an input where it fails.  A client-credentials call is answered
    with status 200 and the body of section 8, and the callback of the
    caller throws: [requestComplete] calls it inside its try block, so the
    catch clause meant for the parse error calls it again.  The callback
    runs twice, first with the result and then with nothing. *)
Theorem throwing_callback_is_called_twice :
  calls (trace (prototype.createTokenClientCredentials
                  sample_adapter sample_options (caller always_throws)
                  (answer 200 undefined [[token_body]])))
  = [(None,
      VObj [("access_token", str "T");
            ("refresh_token", str "R");
            ("token_type", str "client_credentials");
            ("scope", str "S");
            ("expires_in", VPrim (PNum (Dec 3600 0)))]);
     (None, undefined)].
Proof. vm_compute. reflexivity. Qed.

(** C9. The constructor throws, having sent nothing, when the uri is
    missing and when the key is missing; given both, it returns the
    adapter whose two fields are the uri and the key it was given. *)
Theorem constructor_requires_uri_and_key options :
  (opt_uri options = PUndef ->
   spi options = ([], Thrown (Throw (Error "uri parameter must be specified"))))
  /\ (opt_key options = PUndef ->
      exists msg, spi options = ([], Thrown (Throw (Error msg))))
  /\ (truthy (opt_uri options) = true -> opt_key options = PUndef ->
      spi options = ([], Thrown (Throw (Error "key parameter must be specified"))))
  /\ (truthy (opt_uri options) = true -> truthy (opt_key options) = true ->
      spi options
      = ([], Returned {| uri := opt_uri options; key := opt_key options |})).
Proof.
  unfold spi. repeat split.
  - intros ->. reflexivity.
  - intros ->. destruct (truthy (opt_uri options)); eexists; reflexivity.
  - intros -> ->. reflexivity.
  - intros -> ->. reflexivity.
Qed.

Lemma constructor_requires_uri_and_key_witness :
  spi {| opt_uri := PUndef; opt_key := PStr "K" |}
  = ([], Thrown (Throw (Error "uri parameter must be specified")))
  /\ spi {| opt_uri := PStr "https://api.example.com/oauth"; opt_key := PUndef |}
     = ([], Thrown (Throw (Error "key parameter must be specified")))
  /\ spi {| opt_uri := PStr "https://api.example.com/oauth"; opt_key := PStr "K" |}
     = ([], Returned sample_adapter).
Proof.
  split; [|split].
  - apply (proj1 (constructor_requires_uri_and_key
                    {| opt_uri := PUndef; opt_key := PStr "K" |})).
    reflexivity.
  - apply (proj1 (proj2 (proj2 (constructor_requires_uri_and_key
             {| opt_uri := PStr "https://api.example.com/oauth";
                opt_key := PUndef |}))));
      reflexivity.
  - apply (proj2 (proj2 (proj2 (constructor_requires_uri_and_key
             {| opt_uri := PStr "https://api.example.com/oauth";
                opt_key := PStr "K" |}))));
      reflexivity.
Defined.

(** C10. A GET operation always puts a fixed response_type first in its
    query string, code for generateAuthorizationCode and token for
    createTokenImplicitGrant, whatever optional parameters it is given. *)
Theorem get_query_has_response_type op self options throws net :
  is_get op = true -> supported self = true ->
  exists r rest,
    requests (trace (run op self options (caller throws) net)) = [r]
    /\ url r = to_str (uri self) ++ table_path op
                ++ "?response_type=" ++ response_type op ++ "&" ++ rest.
Proof.
  intros Hop Hs.
  destruct (get_sends op self options throws net Hop Hs)
    as (r & more & Hreq & Hhref & _).
  exists r. eexists. split; [exact Hreq|]. rewrite Hhref.
  rewrite stringify_cons.
  destruct op; try discriminate Hop; reflexivity.
Qed.

Lemma get_query_has_response_type_witness :
  is_get CreateTokenImplicitGrant = true
  /\ supported sample_adapter = true
  /\ exists r rest,
       requests (trace (run CreateTokenImplicitGrant sample_adapter no_options
                          (caller returns) (answer 302 undefined [])))
       = [r]
       /\ url r = "https://api.example.com/oauth" ++ "/tokentypes/implicit/tokens"
                   ++ "?response_type=" ++ "token" ++ "&" ++ rest.
Proof.
  split; [reflexivity|]. split; [reflexivity|].
  apply (get_query_has_response_type CreateTokenImplicitGrant sample_adapter
           no_options returns (answer 302 undefined []));
    reflexivity.
Defined.

(** * Further properties *)

(** ** Every operation as one exchange *)

Lemma run_exchange op self options cb net :
  supported self = true ->
  exists r,
    run op self options cb net
    = exchange r net (recorded op options) (complete op cb) cb.
Proof.
  intros Hs. destruct op; open_operation; sent Hs cb; exists r; exact Hrun.
Qed.

Lemma requestComplete_events_readable statusCode options cb chunks rest data :
  requestComplete_events statusCode options cb
    (map OnReadable chunks ++ rest) data
  = requestComplete_events statusCode options cb rest
      (data ++ received chunks).
Proof.
  revert data. induction chunks as [|available chunks IH]; intros data.
  - unfold received. simpl. now rewrite append_empty_r.
  - cbn [map app requestComplete_events]. rewrite IH, readResponse_flatten.
    unfold received. cbn [List.concat].
    now rewrite map_app, flatten_app, append_assoc.
Qed.

Lemma getRequestComplete_events_readable statusCode location cb chunks rest data :
  getRequestComplete_events statusCode location cb
    (map OnReadable chunks ++ rest) data
  = getRequestComplete_events statusCode location cb rest
      (data ++ received chunks).
Proof.
  revert data. induction chunks as [|available chunks IH]; intros data.
  - unfold received. simpl. now rewrite append_empty_r.
  - cbn [map app getRequestComplete_events]. rewrite IH, readResponse_flatten.
    unfold received. cbn [List.concat].
    now rewrite map_app, flatten_app, append_assoc.
Qed.

(** The handler of an operation on a response whose stream delivers
    [chunks] and then goes on with [rest]. *)
Lemma complete_readable op cb options statusCode location chunks rest :
  complete op cb options
    {| resp_statusCode := statusCode; resp_location := location;
       resp_events := (map OnReadable chunks ++ rest)%list |}
  = if is_get op
    then getRequestComplete_events statusCode location cb rest
           (received chunks)
    else requestComplete_events statusCode options cb rest (received chunks).
Proof.
  unfold complete, getRequestComplete, requestComplete.
  cbn [resp_statusCode resp_location resp_events].
  now rewrite getRequestComplete_events_readable,
    requestComplete_events_readable.
Qed.

Lemma trace_exchange_responds r meanwhile resp options onResponse cb :
  trace (exchange r (Responds meanwhile resp) options onResponse cb)
  = Sent r :: trace (onResponse (meanwhile options) resp).
Proof.
  unfold exchange, perform_effect, bind.
  now destruct (onResponse (meanwhile options) resp) as [t [a|x]].
Qed.

(** ** Failures before and during the exchange *)

(** X2. When the request itself fails (its 'error' event), every
    operation has sent its one request and hands the error it was given,
    unchanged and alone, to the callback. *)
Theorem request_error_reaches_the_callback op self options throws err :
  supported self = true ->
  exists r,
    trace (run op self options (caller throws) (RequestError err))
    = [Sent r; Called (Some err) undefined].
Proof.
  intros Hs.
  destruct (run_exchange op self options (caller throws) (RequestError err) Hs)
    as [r ->].
  exists r. reflexivity.
Qed.

Lemma request_error_reaches_the_callback_witness :
  supported sample_adapter = true
  /\ exists r,
       trace (run RefreshToken sample_adapter sample_options (caller returns)
                (RequestError (Error "connect ECONNREFUSED")))
       = [Sent r; Called (Some (Error "connect ECONNREFUSED")) undefined].
Proof.
  split; [reflexivity|].
  apply (request_error_reaches_the_callback RefreshToken sample_adapter
           sample_options returns (Error "connect ECONNREFUSED")).
  reflexivity.
Defined.

(** X3. When the stream of the response fails (its 'error' event) after
    any number of chunks, the callback receives that error, unchanged, and
    nothing else: the chunks read so far are dropped.  This holds for every
    operation and every status. *)
Theorem response_error_reaches_the_callback op self options throws meanwhile
    statusCode location chunks err :
  supported self = true ->
  calls (trace (run op self options (caller throws)
                  (Responds meanwhile
                     {| resp_statusCode := statusCode;
                        resp_location := location;
                        resp_events :=
                          (map OnReadable chunks ++ [OnError err])%list |})))
  = [(Some err, undefined)].
Proof.
  intros Hs.
  destruct (run_exchange op self options (caller throws)
              (Responds meanwhile
                 {| resp_statusCode := statusCode; resp_location := location;
                    resp_events :=
                      (map OnReadable chunks ++ [OnError err])%list |}) Hs)
    as [r ->].
  rewrite calls_exchange, complete_readable.
  destruct (is_get op);
    cbn [getRequestComplete_events requestComplete_events];
    unfold caller; destruct (throws (Some err) undefined); reflexivity.
Qed.

Lemma response_error_reaches_the_callback_witness :
  supported sample_adapter = true
  /\ calls (trace (run CreateTokenImplicitGrant sample_adapter sample_options
                     (caller returns)
                     (Responds (fun o => o)
                        {| resp_statusCode := 302;
                           resp_location := str "https://app/cb#x";
                           resp_events :=
                             (map OnReadable [["par"]; ["tial"]]
                                ++ [OnError (Error "aborted")])%list |})))
     = [(Some (Error "aborted"), undefined)].
Proof.
  split; [reflexivity|].
  apply (response_error_reaches_the_callback CreateTokenImplicitGrant
           sample_adapter sample_options returns (fun o => o) 302
           (str "https://app/cb#x") [["par"]; ["tial"]] (Error "aborted")).
  reflexivity.
Defined.

(** ** The request of an operation, whatever the network does next *)

Lemma makeRequest_exchange self verb p body_ options cb :
  supported self = true -> nonempty body_ = true ->
  exists r,
    (forall net,
       makeRequest self verb (String "/" p) body_ options cb net
       = exchange r net options
           (fun options resp => requestComplete resp options cb) cb)
    /\ url r = to_str (uri self) ++ String "/" p
    /\ method r = verb
    /\ headers r
       = (("Authorization",
           PStr (base64 (to_str (clientId options) ++ ":"
                           ++ to_str (clientSecret options))))
          :: ("x-DNA-Api-Key", key self)
          :: (if truthy (tokenLifetime options)
              then [("x-DNA-Token-Lifetime", tokenLifetime options)]
              else [])
          ++ [("Content-Type", PStr "application/x-www-form-urlencoded")])%list
    /\ body r = Some body_.
Proof.
  intros Hs Hne. unfold supported, is_http in Hs.
  unfold makeRequest, protocol_is. cbn [protocol].
  rewrite url_protocol_path, Hne.
  destruct (url_protocol (to_str (uri self))) as [s|]; [|discriminate Hs].
  eexists. split.
  { intros net. destruct (String.eqb s "http:"); [reflexivity|].
    cbn [orb] in Hs. rewrite Hs. reflexivity. }
  cbn [url method headers body].
  destruct (truthy (tokenLifetime options)); repeat split; reflexivity.
Qed.

Lemma makeGetRequest_exchange self p qs options cb :
  supported self = true ->
  exists r,
    (forall net,
       makeGetRequest self (String "/" p) qs options cb net
       = exchange r net options
           (fun options resp => getRequestComplete resp options cb) cb)
    /\ url r = to_str (uri self) ++ String "/" p ++ "?" ++ qs
    /\ method r = "GET"
    /\ headers r = [("x-DNA-Api-Key", key self)]
    /\ body r = None.
Proof.
  intros Hs. unfold supported, is_http in Hs.
  unfold makeGetRequest, protocol_is. cbn [protocol].
  change (String "/" p ++ "?" ++ qs) with (String "/" (p ++ "?" ++ qs)).
  rewrite url_protocol_path.
  destruct (url_protocol (to_str (uri self))) as [s|]; [|discriminate Hs].
  eexists. split.
  { intros net. destruct (String.eqb s "http:"); [reflexivity|].
    cbn [orb] in Hs. rewrite Hs. reflexivity. }
  repeat split; reflexivity.
Qed.

(** The query object of every POST operation gives a body that is not
    empty: its first key is a fixed name. *)
Ltac body_not_empty :=
  repeat match goal with
         | |- context [truthy ?x] => destruct (truthy x)
         end;
  reflexivity.

(** As [sent], with the request that does not depend on the network and
    its headers in full. *)
Ltac sent_exactly Hs cb :=
  lazymatch goal with
  | |- context [makeRequest ?s ?v (String "/" ?p) ?b ?o _ _] =>
    let Hne := fresh "Hne" in
    assert (Hne : nonempty b = true) by body_not_empty;
    destruct (makeRequest_exchange s v p b o cb Hs Hne)
      as (r & Hrun & Hhref & Hmeth & Hhead & Hbody)
  | |- context [makeGetRequest ?s (String "/" ?p) ?q ?o _ _] =>
    destruct (makeGetRequest_exchange s p q o cb Hs)
      as (r & Hrun & Hhref & Hmeth & Hhead & Hbody)
  end.

Lemma run_exchange_all op self options cb :
  supported self = true ->
  exists r, forall net,
    run op self options cb net
    = exchange r net (recorded op options) (complete op cb) cb.
Proof.
  intros Hs.
  destruct op; open_operation;
    lazymatch goal with
    | |- exists r, forall net,
           makeRequest ?s ?v (String "/" ?p) ?b ?o ?c net = _ =>
      assert (Hne : nonempty b = true) by body_not_empty;
      destruct (makeRequest_exchange s v p b o c Hs Hne) as (r & Hrun & _)
    | |- exists r, forall net,
           makeGetRequest ?s (String "/" ?p) ?q ?o ?c net = _ =>
      destruct (makeGetRequest_exchange s p q o c Hs) as (r & Hrun & _)
    end;
    exists r; exact Hrun.
Qed.

(** ** When the callback runs *)

Lemma requestComplete_events_idle statusCode options cb events data :
  completions events = O ->
  requestComplete_events statusCode options cb events data = pure tt.
Proof.
  revert data.
  induction events as [|[available| |err] rest IH]; intros data H;
    try discriminate H; cbn [requestComplete_events];
    [reflexivity | now apply IH].
Qed.

Lemma getRequestComplete_events_idle statusCode location cb events data :
  completions events = O ->
  getRequestComplete_events statusCode location cb events data = pure tt.
Proof.
  revert data.
  induction events as [|[available| |err] rest IH]; intros data H;
    try discriminate H; cbn [getRequestComplete_events];
    [reflexivity | now apply IH].
Qed.

(** X4. While the stream of a response only delivers data, no operation
    calls the callback: it is called by the 'end' event or an 'error'
    event, never by a 'readable' one, whatever the status. *)
Theorem no_callback_before_the_end op self options throws meanwhile
    statusCode location events :
  supported self = true -> completions events = O ->
  calls (trace (run op self options (caller throws)
                  (Responds meanwhile
                     {| resp_statusCode := statusCode;
                        resp_location := location;
                        resp_events := events |})))
  = [].
Proof.
  intros Hs Hev.
  destruct (run_exchange_all op self options (caller throws) Hs) as [r ->].
  rewrite calls_exchange. unfold complete, getRequestComplete, requestComplete.
  cbn [resp_statusCode resp_location resp_events].
  rewrite getRequestComplete_events_idle, requestComplete_events_idle
    by exact Hev.
  now destruct (is_get op).
Qed.

Lemma no_callback_before_the_end_witness :
  supported sample_adapter = true
  /\ completions [OnReadable ["{"]; OnReadable []; OnReadable ["}"]] = O
  /\ calls (trace (run CreateTokenClientCredentials sample_adapter
                     sample_options (caller always_throws)
                     (Responds (fun o => o)
                        {| resp_statusCode := 200;
                           resp_location := undefined;
                           resp_events :=
                             [OnReadable ["{"]; OnReadable [];
                              OnReadable ["}"]] |})))
     = [].
Proof.
  split; [reflexivity|]. split; [reflexivity|].
  apply (no_callback_before_the_end CreateTokenClientCredentials sample_adapter
           sample_options always_throws (fun o => o) 200 undefined
           [OnReadable ["{"]; OnReadable []; OnReadable ["}"]]);
    reflexivity.
Defined.

Lemma post_end_returns statusCode options respData :
  exists err result,
    (if statusCode >=? 300
     then caller returns (Some (http_error statusCode respData)) undefined
     else
       try_catch
         (sr <- JSON_parse respData ;;
          access_token <- get sr "access_token" ;;
          refresh_token <- get sr "refresh_token" ;;
          scope <- get sr "scope" ;;
          expires_in <- get sr "expires_in" ;;
          expires_in <- parseInt expires_in ;;
          caller returns None
            (VObj [("access_token", access_token);
                   ("refresh_token", refresh_token);
                   ("token_type", VPrim (grantType options));
                   ("scope", scope);
                   ("expires_in", VPrim (PNum expires_in))]))
         (fun _ => caller returns None undefined))
    = ([Called err result], Returned tt).
Proof.
  destruct (statusCode >=? 300); [do 2 eexists; reflexivity|].
  unfold JSON_parse. destruct (JSON.parse respData) as [v|];
    [|do 2 eexists; reflexivity].
  rewrite bind_pure.
  destruct v as [[| | | |]| |m]; try (do 2 eexists; reflexivity).
  rewrite !get_object, !bind_pure. unfold parseInt, ToString.
  destruct (value_toString (field m "expires_in"));
    do 2 eexists; reflexivity.
Qed.

Lemma requestComplete_events_count statusCode options events data :
  exists t,
    requestComplete_events statusCode options (caller returns) events data
    = (t, Returned tt)
    /\ length (calls t) = completions events.
Proof.
  revert data.
  induction events as [|[available| |err] rest IH]; intros data;
    cbn [requestComplete_events completions].
  - exists []. split; reflexivity.
  - apply IH.
  - destruct (post_end_returns statusCode options data) as (e & v & ->).
    destruct (IH data) as (t & -> & Hlen).
    eexists. split; [reflexivity|]. simpl. now rewrite Hlen.
  - destruct (IH data) as (t & -> & Hlen).
    eexists. split; [reflexivity|]. simpl. now rewrite Hlen.
Qed.

Lemma getRequestComplete_events_count statusCode location events data :
  exists t,
    getRequestComplete_events statusCode location (caller returns) events data
    = (t, Returned tt)
    /\ length (calls t) = completions events.
Proof.
  revert data.
  induction events as [|[available| |err] rest IH]; intros data;
    cbn [getRequestComplete_events completions].
  - exists []. split; reflexivity.
  - apply IH.
  - destruct (IH data) as (t & -> & Hlen).
    destruct (negb (statusCode =? 302)); eexists; (split; [reflexivity|]);
      simpl; now rewrite Hlen.
  - destruct (IH data) as (t & -> & Hlen).
    eexists. split; [reflexivity|]. simpl. now rewrite Hlen.
Qed.

(** X5. The handlers of a response keep no record of having called back:
    with a callback that returns, every operation calls it once for each
    'end' and each 'error' event that the stream emits, so as many times
    as there are such events. *)
Theorem one_callback_for_each_completion op self options meanwhile
    statusCode location events :
  supported self = true ->
  length (calls (trace (run op self options (caller returns)
                          (Responds meanwhile
                             {| resp_statusCode := statusCode;
                                resp_location := location;
                                resp_events := events |}))))
  = completions events.
Proof.
  intros Hs.
  destruct (run_exchange_all op self options (caller returns) Hs) as [r ->].
  rewrite calls_exchange. unfold complete, getRequestComplete, requestComplete.
  cbn [resp_statusCode resp_location resp_events].
  destruct (is_get op).
  - destruct (getRequestComplete_events_count statusCode location events
                EmptyString) as (t & -> & Hlen). exact Hlen.
  - destruct (requestComplete_events_count statusCode
                (meanwhile (recorded op options)) events EmptyString)
      as (t & -> & Hlen). exact Hlen.
Qed.

Lemma one_callback_for_each_completion_witness :
  supported sample_adapter = true
  /\ length (calls (trace (run InvalidateToken sample_adapter sample_options
                             (caller returns)
                             (Responds (fun o => o)
                                {| resp_statusCode := 200;
                                   resp_location := undefined;
                                   resp_events :=
                                     [OnReadable ["OK"];
                                      OnError (Error "socket hang up");
                                      OnEnd] |}))))
     = 2%nat.
Proof.
  split; [reflexivity|].
  apply (one_callback_for_each_completion InvalidateToken sample_adapter
           sample_options (fun o => o) 200 undefined
           [OnReadable ["OK"]; OnError (Error "socket hang up"); OnEnd]).
  reflexivity.
Defined.

(** X6. When every chunk of the body is well-formed UTF-8 on its own,
    the handlers see the bytes of the body in the order read: where the
    stream cuts the body into chunks, and how it groups them into
    'readable' events, changes nothing of what an operation sends and
    tells the callback.  (A chunk that ends within a character is decoded
    on its own and brings U+FFFD into the text.) *)
Theorem chunking_does_not_matter op self options throws statusCode location
    chunks chunks' :
  supported self = true ->
  well_formed chunks = true -> well_formed chunks' = true ->
  raw_body chunks = raw_body chunks' ->
  trace (run op self options (caller throws)
           (answer statusCode location chunks))
  = trace (run op self options (caller throws)
             (answer statusCode location chunks')).
Proof.
  intros Hs Hw Hw' Heq.
  destruct (run_exchange_all op self options (caller throws) Hs) as [r Hrun].
  rewrite !Hrun. unfold answer.
  rewrite !trace_exchange_responds, !complete_readable.
  now rewrite (received_well_formed _ Hw), (received_well_formed _ Hw'), Heq.
Qed.

Lemma chunking_does_not_matter_witness :
  supported sample_adapter = true
  /\ well_formed [["bad_"; "req"]; []; ["uest"]] = true
  /\ well_formed [["bad_request"]] = true
  /\ raw_body [["bad_"; "req"]; []; ["uest"]] = raw_body [["bad_request"]]
  /\ trace (run RefreshToken sample_adapter sample_options (caller returns)
              (answer 400 undefined [["bad_"; "req"]; []; ["uest"]]))
     = trace (run RefreshToken sample_adapter sample_options (caller returns)
                (answer 400 undefined [["bad_request"]])).
Proof.
  split; [reflexivity|]. split; [reflexivity|]. split; [reflexivity|].
  split; [reflexivity|].
  apply (chunking_does_not_matter RefreshToken sample_adapter sample_options
           returns 400 undefined [["bad_"; "req"]; []; ["uest"]]
           [["bad_request"]]);
    reflexivity.
Defined.

(** ** The requests in full *)

(** X7. The headers of a POST operation, in full and in order:
    Authorization, x-DNA-Api-Key, then x-DNA-Token-Lifetime with the
    tokenLifetime given when that is truthy and no such header when it is
    missing or zero, then Content-Type application/x-www-form-urlencoded;
    and the request has a body. *)
Theorem post_headers_in_full op self options throws net :
  is_post op = true -> supported self = true ->
  exists r,
    requests (trace (run op self options (caller throws) net)) = [r]
    /\ headers r
       = (("Authorization",
           PStr (base64 (to_str (clientId options) ++ ":"
                           ++ to_str (clientSecret options))))
          :: ("x-DNA-Api-Key", key self)
          :: (if truthy (tokenLifetime options)
              then [("x-DNA-Token-Lifetime", tokenLifetime options)]
              else [])
          ++ [("Content-Type", PStr "application/x-www-form-urlencoded")])%list
    /\ body r <> None.
Proof.
  intros Hop Hs.
  destruct op; try discriminate Hop; open_operation;
    sent_exactly Hs (caller throws); exists r;
    (split; [rewrite Hrun; refine (one_request_post _ _ _ _)|]);
    (split; [exact Hhead|]); rewrite Hbody; discriminate.
Qed.

Lemma post_headers_in_full_witness :
  is_post InvalidateToken = true
  /\ supported sample_adapter = true
  /\ exists r,
       requests (trace (run InvalidateToken sample_adapter sample_options
                          (caller returns) (answer 200 undefined [])))
       = [r]
       /\ headers r
          = [("Authorization", PStr "aWQ6c2VjcmV0");
             ("x-DNA-Api-Key", PStr "K");
             ("x-DNA-Token-Lifetime", PNum (Dec 36 5));
             ("Content-Type", PStr "application/x-www-form-urlencoded")]
       /\ body r <> None.
Proof.
  split; [reflexivity|]. split; [reflexivity|].
  apply (post_headers_in_full InvalidateToken sample_adapter sample_options
           returns (answer 200 undefined [])); reflexivity.
Defined.

(** Two ways of writing one string. *)
Ltac same_text :=
  unfold querystring.stringify, encoded; cbn;
  rewrite ?append_assoc, ?append_empty_r; reflexivity.

(** Names the one request of the run in the goal. *)
Ltac one_post_request :=
  match goal with
  | Hrun : forall net, _ = _ |- exists r, _ =>
    match type of Hrun with
    | forall net, _ = exchange ?r _ _ _ _ =>
      exists r; split;
      [rewrite Hrun; refine (one_request_post _ _ _ _)|]
    end
  end.

(** X8. createTokenClientCredentials posts grant_type=client_credentials,
    followed by the scope when that is truthy; a missing or empty scope
    is left out of the body. *)
Theorem client_credentials_body self options throws net :
  supported self = true ->
  exists r,
    requests (trace (prototype.createTokenClientCredentials self options
                       (caller throws) net)) = [r]
    /\ body r
       = Some ("grant_type=client_credentials"
                 ++ (if truthy (scope options)
                     then "&scope=" ++ encoded (scope options)
                     else EmptyString)).
Proof.
  intros Hs. open_operation. sent_exactly Hs (caller throws).
  one_post_request. rewrite Hbody.
  destruct (truthy (scope options)); reflexivity.
Qed.

Lemma client_credentials_body_witness :
  supported sample_adapter = true
  /\ exists r,
       requests (trace (prototype.createTokenClientCredentials sample_adapter
                          sample_options (caller returns)
                          (answer 200 undefined [])))
       = [r]
       /\ body r = Some "grant_type=client_credentials&scope=read%20write".
Proof.
  split; [reflexivity|].
  apply (client_credentials_body sample_adapter sample_options returns
           (answer 200 undefined [])).
  reflexivity.
Defined.

(** X9. createTokenPasswordCredentials always posts the username and the
    password after grant_type=password, as empty values when the caller
    gave none (it checks neither), and the scope only when that is
    truthy. *)
Theorem password_credentials_body self options throws net :
  supported self = true ->
  exists r,
    requests (trace (prototype.createTokenPasswordCredentials self options
                       (caller throws) net)) = [r]
    /\ body r
       = Some ("grant_type=password"
                 ++ "&username=" ++ encoded (username options)
                 ++ "&password=" ++ encoded (password options)
                 ++ (if truthy (scope options)
                     then "&scope=" ++ encoded (scope options)
                     else EmptyString)).
Proof.
  intros Hs. open_operation. sent_exactly Hs (caller throws).
  one_post_request. rewrite Hbody.
  destruct (truthy (scope options)); same_text.
Qed.

Lemma password_credentials_body_witness :
  supported sample_adapter = true
  /\ exists r,
       requests (trace (prototype.createTokenPasswordCredentials
                          sample_adapter no_options (caller returns)
                          (answer 200 undefined [])))
       = [r]
       /\ body r = Some "grant_type=password&username=&password=".
Proof.
  split; [reflexivity|].
  apply (password_credentials_body sample_adapter no_options returns
           (answer 200 undefined [])).
  reflexivity.
Defined.

(** X10. createTokenAuthorizationCode always posts the code after
    grant_type=authorization_code (an empty value when none was given);
    the redirect_uri and the client_id follow, in that order, each only
    when truthy. *)
Theorem authorization_code_body self options throws net :
  supported self = true ->
  exists r,
    requests (trace (prototype.createTokenAuthorizationCode self options
                       (caller throws) net)) = [r]
    /\ body r
       = Some ("grant_type=authorization_code"
                 ++ "&code=" ++ encoded (code options)
                 ++ (if truthy (redirectUri options)
                     then "&redirect_uri=" ++ encoded (redirectUri options)
                     else EmptyString)
                 ++ (if truthy (clientId options)
                     then "&client_id=" ++ encoded (clientId options)
                     else EmptyString)).
Proof.
  intros Hs. open_operation. sent_exactly Hs (caller throws).
  one_post_request. rewrite Hbody.
  destruct (truthy (redirectUri options)), (truthy (clientId options));
    same_text.
Qed.

Lemma authorization_code_body_witness :
  supported sample_adapter = true
  /\ exists r,
       requests (trace (prototype.createTokenAuthorizationCode sample_adapter
                          sample_options (caller returns)
                          (answer 200 undefined [])))
       = [r]
       /\ body r
          = Some ("grant_type=authorization_code&code=c"
                    ++ "&redirect_uri=https%3A%2F%2Fapp%2Fcb&client_id=id").
Proof.
  split; [reflexivity|].
  apply (authorization_code_body sample_adapter sample_options returns
           (answer 200 undefined [])).
  reflexivity.
Defined.

(** X11. refreshToken always posts the refresh_token after
    grant_type=refresh_token (an empty value when none was given), and
    the scope only when that is truthy. *)
Theorem refresh_token_body self options throws net :
  supported self = true ->
  exists r,
    requests (trace (prototype.refreshToken self options (caller throws) net))
    = [r]
    /\ body r
       = Some ("grant_type=refresh_token"
                 ++ "&refresh_token=" ++ encoded (refreshToken options)
                 ++ (if truthy (scope options)
                     then "&scope=" ++ encoded (scope options)
                     else EmptyString)).
Proof.
  intros Hs. open_operation. sent_exactly Hs (caller throws).
  one_post_request. rewrite Hbody.
  destruct (truthy (scope options)); same_text.
Qed.

Lemma refresh_token_body_witness :
  supported sample_adapter = true
  /\ exists r,
       requests (trace (prototype.refreshToken sample_adapter sample_options
                          (caller returns) (answer 200 undefined [])))
       = [r]
       /\ body r
          = Some "grant_type=refresh_token&refresh_token=RT&scope=read%20write".
Proof.
  split; [reflexivity|].
  apply (refresh_token_body sample_adapter sample_options returns
           (answer 200 undefined [])).
  reflexivity.
Defined.

(** X12. The request of a GET operation in full.  The string it hands to
    url.parse is the base URI, the path and a query string of
    response_type, then client_id (always, as an empty value when none was
    given), then redirect_uri, scope and state, in that order, each only
    when truthy; the request is the parse of that string with the method
    GET, the x-DNA-Api-Key header alone and no body, and neither
    clientSecret nor tokenLifetime appears in it.  (What the parser makes
    of the string, the lower case of scheme and host and the characters
    it escapes, is not part of the statement.) *)
Theorem get_request_in_full op self options throws net :
  is_get op = true -> supported self = true ->
  requests (trace (run op self options (caller throws) net))
  = [{| url :=
          to_str (uri self) ++ table_path op
            ++ "?response_type=" ++ response_type op
            ++ "&client_id=" ++ encoded (clientId options)
            ++ (if truthy (redirectUri options)
                then "&redirect_uri=" ++ encoded (redirectUri options)
                else EmptyString)
            ++ (if truthy (scope options)
                then "&scope=" ++ encoded (scope options)
                else EmptyString)
            ++ (if truthy (state options)
                then "&state=" ++ encoded (state options)
                else EmptyString);
        protocol := url_protocol (to_str (uri self));
        method := "GET";
        headers := [("x-DNA-Api-Key", key self)];
        body := None |}].
Proof.
  intros Hop Hs.
  destruct op; try discriminate Hop; open_operation;
    unfold makeGetRequest, protocol_is; cbn [protocol];
    match goal with
    | |- context [url_protocol (?u ++ String "/" ?p ++ "?" ++ ?q)] =>
      change (String "/" p ++ "?" ++ q) with (String "/" (p ++ "?" ++ q));
      rewrite url_protocol_path
    end;
    unfold supported, is_http in Hs;
    (destruct (url_protocol (to_str (uri self))) as [s|]; [|discriminate Hs]);
    match goal with
    | |- requests (trace (if ?b then ?x else if ?c then ?x else _)) = _ =>
      replace (if b then x else if c then x else _) with x
        by (destruct b; [reflexivity|]; cbn [orb] in Hs; now rewrite Hs)
    end;
    rewrite (one_request_get _ _ _ _);
    do 2 f_equal;
    destruct (truthy (redirectUri options)), (truthy (scope options)),
      (truthy (state options));
    same_text.
Qed.

Lemma get_request_in_full_witness :
  is_get GenerateAuthorizationCode = true
  /\ supported sample_adapter = true
  /\ requests (trace (run GenerateAuthorizationCode sample_adapter
                        sample_options (caller returns)
                        (answer 302 undefined [])))
     = [{| url :=
             "https://api.example.com/oauth/tokentypes/authcode/authcodes"
               ++ "?response_type=code&client_id=id"
               ++ "&redirect_uri=https%3A%2F%2Fapp%2Fcb&scope=read%20write";
           protocol := Some "https:";
           method := "GET";
           headers := [("x-DNA-Api-Key", PStr "K")];
           body := None |}].
Proof.
  split; [reflexivity|]. split; [reflexivity|].
  apply (get_request_in_full GenerateAuthorizationCode sample_adapter
           sample_options returns (answer 302 undefined []));
    reflexivity.
Defined.

Lemma unsupported_protocol_witness :
  supported {| uri := PStr "ftp://files.example.com"; key := PStr "K" |} = false
  /\ trace (run GenerateAuthorizationCode
              {| uri := PStr "ftp://files.example.com"; key := PStr "K" |}
              sample_options (caller returns) (answer 302 undefined []))
     = [Called (Some {| err_message := "Unsupported protocol ftp:";
                        err_statusCode := None |}) undefined].
Proof.
  split; [reflexivity|].
  apply (unsupported_protocol GenerateAuthorizationCode
           {| uri := PStr "ftp://files.example.com"; key := PStr "K" |}
           sample_options returns (answer 302 undefined [])).
  reflexivity.
Defined.

(** ** The result of a POST operation *)

Lemma post_calls_shared op self options throws meanwhile statusCode location
    chunks :
  is_post op = true -> supported self = true ->
  calls (trace (run op self options (caller throws)
                  (Responds meanwhile
                     {| resp_statusCode := statusCode;
                        resp_location := location;
                        resp_events := (map OnReadable chunks ++ [OnEnd])%list |})))
  = calls (trace (requestComplete_events statusCode
                    (meanwhile (recorded op options)) (caller throws)
                    [OnEnd] (received chunks))).
Proof.
  intros Hop Hs.
  destruct (run_exchange_all op self options (caller throws) Hs) as [r ->].
  rewrite calls_exchange, complete_readable.
  unfold is_post in Hop. now destruct (is_get op).
Qed.

(** X13. A POST operation that is answered with a status below 300 and a
    JSON object whose expires_in can be made a string first hands the
    callback an object of five properties: access_token, refresh_token and
    scope are those of the answer (undefined when it has none), expires_in
    is what parseInt reads in the string made of the one of the answer,
    and token_type is the grantType found in the parameter object when
    the response ends, after whatever the caller has done to that object
    since the request.  A token_type in the answer is ignored.  The
    answer is the text of the body as the handler has it, each chunk
    decoded on its own. *)
Theorem post_result_of_object op self options throws meanwhile statusCode
    location chunks m s :
  is_post op = true -> supported self = true ->
  statusCode < 300 -> JSON.parse (received chunks) = Some (VObj m) ->
  value_toString (field m "expires_in") = Some s ->
  hd_error
    (calls (trace (run op self options (caller throws)
                     (Responds meanwhile
                        {| resp_statusCode := statusCode;
                           resp_location := location;
                           resp_events :=
                             (map OnReadable chunks ++ [OnEnd])%list |}))))
  = Some (None,
          VObj [("access_token", field m "access_token");
                ("refresh_token", field m "refresh_token");
                ("token_type",
                 VPrim (grantType (meanwhile (recorded op options))));
                ("scope", field m "scope");
                ("expires_in", VPrim (PNum (parseInt_string s)))]).
Proof.
  intros Hop Hs Hlt Hp Hstr.
  rewrite (post_calls_shared _ _ _ _ _ _ _ _ Hop Hs).
  now rewrite (post_end_object _ _ _ _ _ _ Hlt Hp Hstr).
Qed.

Lemma post_result_of_object_witness :
  is_post CreateTokenPasswordCredentials = true
  /\ supported sample_adapter = true
  /\ 201 < 300
  /\ JSON.parse (received [["{"; quoted "token_type"; ":"; quoted "bearer"];
                           [","; quoted "expires_in"; ":60}"]])
     = Some (VObj [("token_type", str "bearer");
                   ("expires_in", VPrim (PNum (Dec 60 0)))])
  /\ value_toString (VPrim (PNum (Dec 60 0))) = Some "60"
  /\ hd_error
       (calls (trace (run CreateTokenPasswordCredentials sample_adapter
                        sample_options (caller returns)
                        (Responds (set_grantType (PStr "refresh_token"))
                           {| resp_statusCode := 201;
                              resp_location := undefined;
                              resp_events :=
                                (map OnReadable
                                   [["{"; quoted "token_type"; ":";
                                     quoted "bearer"];
                                    [","; quoted "expires_in"; ":60}"]]
                                   ++ [OnEnd])%list |}))))
     = Some (None,
             VObj [("access_token", undefined);
                   ("refresh_token", undefined);
                   ("token_type", str "refresh_token");
                   ("scope", undefined);
                   ("expires_in", VPrim (PNum (Dec 60 0)))]).
Proof.
  split; [reflexivity|]. split; [reflexivity|]. split; [lia|].
  split; [reflexivity|]. split; [reflexivity|].
  apply (post_result_of_object CreateTokenPasswordCredentials sample_adapter
           sample_options returns (set_grantType (PStr "refresh_token")) 201
           undefined
           [["{"; quoted "token_type"; ":"; quoted "bearer"];
            [","; quoted "expires_in"; ":60}"]]
           [("token_type", str "bearer");
            ("expires_in", VPrim (PNum (Dec 60 0)))] "60");
    [reflexivity | reflexivity | lia | reflexivity | reflexivity].
Defined.

(** X14. When the caller leaves the parameter object alone, the token_type
    of that result (for an answer whose expires_in can be made a string)
    is the grant type of the operation for the four token operations;
    invalidateToken records none, so there it is the grantType the caller
    passed, undefined when the caller passed none. *)
Theorem token_type_of_result op self options throws statusCode location
    chunks m s :
  is_post op = true -> supported self = true ->
  statusCode < 300 -> JSON.parse (received chunks) = Some (VObj m) ->
  value_toString (field m "expires_in") = Some s ->
  exists result,
    hd_error (calls (trace (run op self options (caller throws)
                              (answer statusCode location chunks))))
    = Some (None, VObj result)
    /\ obj_get "token_type" result
       = Some (VPrim (match op with
                      | CreateTokenClientCredentials => PStr "client_credentials"
                      | CreateTokenPasswordCredentials => PStr "password"
                      | CreateTokenAuthorizationCode => PStr "authorization_code"
                      | RefreshToken => PStr "refresh_token"
                      | _ => grantType options
                      end)).
Proof.
  intros Hop Hs Hlt Hp Hstr.
  rewrite (post_calls _ _ _ _ _ _ _ Hop Hs).
  rewrite (post_end_object _ _ _ _ _ _ Hlt Hp Hstr).
  eexists. split; [reflexivity|].
  destruct op; try discriminate Hop; reflexivity.
Qed.

Lemma token_type_of_result_witness :
  is_post InvalidateToken = true
  /\ supported sample_adapter = true
  /\ 200 < 300
  /\ JSON.parse (received [["{}"]]) = Some (VObj [])
  /\ value_toString (field [] "expires_in") = Some "undefined"
  /\ exists result,
       hd_error (calls (trace (run InvalidateToken sample_adapter
                                 sample_options (caller returns)
                                 (answer 200 undefined [["{}"]]))))
       = Some (None, VObj result)
       /\ obj_get "token_type" result = Some undefined.
Proof.
  split; [reflexivity|]. split; [reflexivity|]. split; [lia|].
  split; [reflexivity|]. split; [reflexivity|].
  apply (token_type_of_result InvalidateToken sample_adapter sample_options
           returns 200 undefined [["{}"]] [] "undefined");
    [reflexivity | reflexivity | lia | reflexivity | reflexivity].
Defined.

(** X21. An answer whose expires_in cannot be made a string.  When the
    body is a JSON object, the status is below 300 and the conversion of
    its expires_in throws (an object with a property toString of its own,
    or an array that holds one), a POST operation calls back once with
    neither error nor result, as for a body that is not JSON: the
    TypeError of parseInt is caught with the errors of JSON.parse. *)
Theorem unconvertible_expires_in_is_empty_success op self options throws
    statusCode location chunks m :
  is_post op = true -> supported self = true -> statusCode < 300 ->
  JSON.parse (received chunks) = Some (VObj m) ->
  value_toString (field m "expires_in") = None ->
  calls (trace (run op self options (caller throws)
                  (answer statusCode location chunks)))
  = [(None, undefined)].
Proof.
  intros Hop Hs Hlt Hp Hstr.
  rewrite (post_calls _ _ _ _ _ _ _ Hop Hs).
  now apply (post_end_unconvertible _ _ _ _ m).
Qed.

Lemma unconvertible_expires_in_is_empty_success_witness :
  is_post CreateTokenClientCredentials = true
  /\ supported sample_adapter = true
  /\ 200 < 300
  /\ JSON.parse (received [["{"; quoted "access_token"; ":"; quoted "T"; ",";
                            quoted "expires_in"; ":{";
                            quoted "toString"; ":0}}"]])
     = Some (VObj [("access_token", str "T");
                   ("expires_in", VObj [("toString", VPrim (PNum (Dec 0 0)))])])
  /\ value_toString (VObj [("toString", VPrim (PNum (Dec 0 0)))]) = None
  /\ calls (trace (run CreateTokenClientCredentials sample_adapter
                     sample_options (caller returns)
                     (answer 200 undefined
                        [["{"; quoted "access_token"; ":"; quoted "T"; ",";
                          quoted "expires_in"; ":{";
                          quoted "toString"; ":0}}"]])))
     = [(None, undefined)].
Proof.
  split; [reflexivity|]. split; [reflexivity|]. split; [lia|].
  split; [vm_compute; reflexivity|]. split; [reflexivity|].
  apply (unconvertible_expires_in_is_empty_success
           CreateTokenClientCredentials sample_adapter sample_options returns
           200 undefined
           [["{"; quoted "access_token"; ":"; quoted "T"; ",";
             quoted "expires_in"; ":{"; quoted "toString"; ":0}}"]]
           [("access_token", str "T");
            ("expires_in", VObj [("toString", VPrim (PNum (Dec 0 0)))])]);
    [reflexivity | reflexivity | lia | vm_compute; reflexivity | reflexivity].
Defined.

Lemma get_no_properties v k :
  no_properties v = true -> get v k = pure undefined.
Proof. destruct v as [[| | | |]| |m]; intros H; try discriminate H; reflexivity. Qed.

(** X15. A body that is JSON but no object, with a status below 300.  The
    text null makes a POST operation call back with neither error nor
    result, as a body that is not JSON does.  A string, a number, a boolean
    or an array makes it hand the callback a result whose access_token,
    refresh_token and scope are undefined and whose expires_in is NaN,
    with the token_type as usual. *)
Theorem post_result_of_other_json op self options throws statusCode location
    chunks :
  is_post op = true -> supported self = true -> statusCode < 300 ->
  let told := calls (trace (run op self options (caller throws)
                              (answer statusCode location chunks))) in
  (JSON.parse (received chunks) = Some (VPrim PNull) ->
   told = [(None, undefined)])
  /\ (forall v, JSON.parse (received chunks) = Some v ->
      no_properties v = true ->
      hd_error told
      = Some (None,
              VObj [("access_token", undefined);
                    ("refresh_token", undefined);
                    ("token_type", VPrim (grantType (recorded op options)));
                    ("scope", undefined);
                    ("expires_in", VPrim (PNum NaN))])).
Proof.
  intros Hop Hs Hlt told. subst told.
  rewrite (post_calls _ _ _ _ _ _ _ Hop Hs).
  cbn [requestComplete_events]. rewrite (geb_300_false _ Hlt).
  unfold JSON_parse. split.
  - intros ->. cbn. now destruct (throws None undefined).
  - intros v -> Hv. rewrite bind_pure, !(get_no_properties _ _ Hv), !bind_pure.
    change (parseInt undefined) with (pure (A := number) NaN).
    rewrite bind_pure. unfold caller.
    match goal with
    | |- context [throws None ?x] => destruct (throws None x)
    end; cbn; [now destruct (throws None undefined) | reflexivity].
Qed.

Lemma post_result_of_other_json_witness :
  is_post RefreshToken = true
  /\ supported sample_adapter = true
  /\ 200 < 300
  /\ JSON.parse (received [["null"]]) = Some (VPrim PNull)
  /\ calls (trace (run RefreshToken sample_adapter sample_options
                     (caller returns) (answer 200 undefined [["null"]])))
     = [(None, undefined)]
  /\ JSON.parse (received [[quoted "OK"]]) = Some (str "OK")
  /\ hd_error (calls (trace (run RefreshToken sample_adapter sample_options
                               (caller returns)
                               (answer 200 undefined [[quoted "OK"]]))))
     = Some (None,
             VObj [("access_token", undefined);
                   ("refresh_token", undefined);
                   ("token_type", str "refresh_token");
                   ("scope", undefined);
                   ("expires_in", VPrim (PNum NaN))]).
Proof.
  split; [reflexivity|]. split; [reflexivity|]. split; [lia|].
  split; [reflexivity|].
  split.
  - refine (proj1 (post_result_of_other_json RefreshToken sample_adapter
                     sample_options returns 200 undefined [["null"]]
                     _ _ _) _); [reflexivity | reflexivity | lia | reflexivity].
  - split; [reflexivity|].
    refine (proj2 (post_result_of_other_json RefreshToken sample_adapter
                     sample_options returns 200 undefined [[quoted "OK"]]
                     _ _ _) (str "OK") _ _);
      [reflexivity | reflexivity | lia | reflexivity | reflexivity].
Defined.

(** ** A callback that throws *)

(** X16. Where the callback is called outside the try block, an exception
    it throws leaves the handler after that single call: so it is for a
    GET operation at every status, and for a POST operation at a status of
    300 or more. *)
Theorem exception_leaves_after_one_call op self options statusCode location
    chunks :
  supported self = true ->
  is_get op = true \/ statusCode >= 300 ->
  let m := run op self options (caller always_throws)
             (answer statusCode location chunks) in
  length (calls (trace m)) = 1%nat /\ result_of m = Thrown CallerException.
Proof.
  intros Hs Hcase m. subst m.
  destruct (run_exchange_all op self options (caller always_throws) Hs)
    as [r ->].
  unfold answer, exchange. rewrite complete_readable.
  destruct (is_get op) eqn:Hop.
  - cbn [getRequestComplete_events].
    destruct (negb (statusCode =? 302)); split; reflexivity.
  - destruct Hcase as [H|H]; [discriminate H|].
    cbn [requestComplete_events]. rewrite (geb_300_true _ H).
    split; reflexivity.
Qed.

Lemma exception_leaves_after_one_call_witness :
  supported sample_adapter = true
  /\ (is_get CreateTokenClientCredentials = true \/ 503 >= 300)
  /\ length (calls (trace (run CreateTokenClientCredentials sample_adapter
                             sample_options (caller always_throws)
                             (answer 503 undefined [["busy"]])))) = 1%nat
  /\ result_of (run CreateTokenClientCredentials sample_adapter
                  sample_options (caller always_throws)
                  (answer 503 undefined [["busy"]]))
     = Thrown CallerException.
Proof.
  split; [reflexivity|]. split; [right; lia|].
  apply (exception_leaves_after_one_call CreateTokenClientCredentials
           sample_adapter sample_options 503 undefined [["busy"]]);
    [reflexivity | right; lia].
Defined.

(** ** What is sent can be read back *)

Lemma escape_char_plain (c : ascii) :
  forallb plain_char (querystring.escape_char c) = true.
Proof.
  destruct c as [[] [] [] [] [] [] [] []]; vm_compute; reflexivity.
Qed.

Lemma unescape_escape_char (c : ascii) (r : list ascii) :
  unescape_chars (querystring.escape_char c ++ r)%list
  = c :: unescape_chars r.
Proof.
  destruct c as [[] [] [] [] [] [] [] []]; reflexivity.
Qed.

Lemma escape_plain (l : list ascii) :
  forallb plain_char (flat_map querystring.escape_char l) = true.
Proof.
  induction l as [|c l IH]; [reflexivity|].
  cbn [flat_map]. now rewrite forallb_app, escape_char_plain, IH.
Qed.

Lemma unescape_escape (l : list ascii) :
  unescape_chars (flat_map querystring.escape_char l) = l.
Proof.
  induction l as [|c l IH]; [reflexivity|].
  cbn [flat_map]. now rewrite unescape_escape_char, IH.
Qed.

Lemma form_fields_one (a : list ascii) :
  forallb (fun c => negb (Ascii.eqb c "&"%char)) a = true ->
  form_fields a = [a].
Proof.
  induction a as [|c a IH]; [reflexivity|].
  cbn [forallb form_fields]. intros H. apply andb_prop in H as [Hc Ha].
  apply negb_true_iff in Hc. now rewrite Hc, (IH Ha).
Qed.

Lemma form_fields_more (a b : list ascii) :
  forallb (fun c => negb (Ascii.eqb c "&"%char)) a = true ->
  form_fields (a ++ "&"%char :: b)%list = a :: form_fields b.
Proof.
  induction a as [|c a IH]; [reflexivity|].
  cbn [forallb form_fields app]. intros H. apply andb_prop in H as [Hc Ha].
  apply negb_true_iff in Hc. now rewrite Hc, (IH Ha).
Qed.

Lemma plain_no_ampersand (a : list ascii) :
  forallb plain_char a = true ->
  forallb (fun c => negb (Ascii.eqb c "&"%char)) a = true.
Proof.
  induction a as [|c a IH]; [reflexivity|].
  cbn [forallb]. intros H. apply andb_prop in H as [Hc Ha].
  unfold plain_char in Hc. apply negb_true_iff, orb_false_elim in Hc as [Hc _].
  now rewrite Hc, (IH Ha).
Qed.

Lemma cut_field_at (k v : list ascii) :
  forallb plain_char k = true ->
  cut_field (k ++ "="%char :: v)%list = (k, v).
Proof.
  induction k as [|c k IH]; [reflexivity|].
  cbn [forallb cut_field app]. intros H. apply andb_prop in H as [Hc Hk].
  unfold plain_char in Hc. apply negb_true_iff, orb_false_elim in Hc as [_ Hc].
  now rewrite Hc, (IH Hk).
Qed.

Lemma field_chars_no_ampersand (kv : string * string) :
  forallb (fun c => negb (Ascii.eqb c "&"%char)) (field_chars kv) = true.
Proof.
  unfold field_chars. rewrite forallb_app. cbn [forallb].
  now rewrite !plain_no_ampersand by apply escape_plain.
Qed.

Lemma chars_field (kv : string * string) :
  chars (querystring.escape (fst kv) ++ "="
           ++ querystring.escape (querystring.stringifyPrimitive (PStr (snd kv))))
  = field_chars kv.
Proof.
  unfold querystring.escape, field_chars. cbn [querystring.stringifyPrimitive].
  rewrite chars_append, chars_text. cbn [append chars list_ascii_of_string].
  fold (chars (text (flat_map querystring.escape_char (chars (snd kv))))).
  now rewrite chars_text.
Qed.

Lemma form_fields_stringify (qs : list (string * string)) :
  qs <> [] ->
  form_fields (chars (querystring.stringify (strings qs)))
  = map field_chars qs.
Proof.
  induction qs as [|kv [|kv' rest] IH]; intros Hne; [contradiction| |].
  - cbn [strings map]. rewrite stringify_cons, append_empty_r, chars_field.
    cbn [map]. apply form_fields_one, field_chars_no_ampersand.
  - change (strings (kv :: kv' :: rest))
      with ((fst kv, PStr (snd kv)) :: strings (kv' :: rest)).
    rewrite stringify_cons.
    change (strings (kv' :: rest))
      with ((fst kv', PStr (snd kv')) :: strings rest) at 1.
    cbv iota. rewrite chars_append, chars_field.
    change (chars ("&" ++ ?x)) with ("&"%char :: chars x).
    cbn [append chars list_ascii_of_string].
    fold (chars (querystring.stringify
                   ((fst kv', PStr (snd kv')) :: strings rest))).
    rewrite form_fields_more by apply field_chars_no_ampersand.
    cbn [map]. f_equal. apply IH. discriminate.
Qed.

Lemma decode_field (kv : string * string) :
  (let (k, v) := cut_field (field_chars kv) in
   (text (unescape_chars k), text (unescape_chars v))) = kv.
Proof.
  unfold field_chars. rewrite cut_field_at by apply escape_plain.
  rewrite !unescape_escape, !text_chars. now destruct kv.
Qed.

Lemma decode_stringify (qs : list (string * string)) :
  qs <> [] -> decode_form (querystring.stringify (strings qs)) = qs.
Proof.
  intros Hne. unfold decode_form. rewrite (form_fields_stringify qs Hne).
  rewrite map_map. clear Hne.
  induction qs as [|kv qs IH]; [reflexivity|].
  cbn [map]. now rewrite decode_field, IH.
Qed.

(** X17. What createTokenPasswordCredentials posts reads back, as a form
    body, to exactly the parameters given: grant_type password, the
    username, the password and, when it is not empty, the scope, whatever
    characters these strings hold (an ampersand, an equals sign, a percent
    sign, bytes of UTF-8). *)
Theorem password_body_reads_back self options throws net u p sc :
  supported self = true ->
  username options = PStr u -> password options = PStr p ->
  scope options = PStr sc ->
  exists r b,
    requests (trace (prototype.createTokenPasswordCredentials self options
                       (caller throws) net)) = [r]
    /\ body r = Some b
    /\ decode_form b
       = ([("grant_type", "password"); ("username", u); ("password", p)]
            ++ given "scope" sc)%list.
Proof.
  intros Hs Hu Hp Hsc. open_operation. sent_exactly Hs (caller throws).
  exists r. eexists. split; [rewrite Hrun; refine (one_request_post _ _ _ _)|].
  split; [exact Hbody|].
  rewrite Hu, Hp, Hsc. unfold given. cbn [truthy].
  fold (nonempty sc). destruct (nonempty sc).
  - apply (decode_stringify
             [("grant_type", "password"); ("username", u); ("password", p);
              ("scope", sc)]).
    discriminate.
  - apply (decode_stringify
             [("grant_type", "password"); ("username", u); ("password", p)]).
    discriminate.
Qed.

Lemma password_body_reads_back_witness :
  supported sample_adapter = true
  /\ exists r b,
       requests (trace (prototype.createTokenPasswordCredentials
                          sample_adapter awkward_credentials
                          (caller returns) (answer 200 undefined [])))
       = [r]
       /\ body r = Some b
       /\ decode_form b
          = [("grant_type", "password"); ("username", "x&admin=1");
             ("password", "50%=half"); ("scope", "a b")].
Proof.
  split; [reflexivity|].
  apply (password_body_reads_back sample_adapter awkward_credentials returns
           (answer 200 undefined []) "x&admin=1" "50%=half" "a b");
    reflexivity.
Defined.

(** X18. The query string of a GET operation reads back to exactly the
    parameters given: the response_type, the client_id and, of
    redirect_uri, scope and state, those that are not empty, in that
    order and whatever characters they hold. *)
Theorem get_query_reads_back op self options throws net id ru sc st :
  is_get op = true -> supported self = true ->
  clientId options = PStr id -> redirectUri options = PStr ru ->
  scope options = PStr sc -> state options = PStr st ->
  exists r q,
    requests (trace (run op self options (caller throws) net)) = [r]
    /\ url r = to_str (uri self) ++ table_path op ++ "?" ++ q
    /\ decode_form q
       = ([("response_type", response_type op); ("client_id", id)]
            ++ given "redirect_uri" ru ++ given "scope" sc
            ++ given "state" st)%list.
Proof.
  intros Hop Hs Hid Hru Hsc Hst.
  destruct op; try discriminate Hop; open_operation;
    sent_exactly Hs (caller throws);
    exists r; eexists;
    (split; [rewrite Hrun; refine (one_request_get _ _ _ _)|]);
    (split; [exact Hhref|]);
    rewrite Hid, Hru, Hsc, Hst; unfold given; cbn [truthy response_type];
    fold (nonempty ru); fold (nonempty sc); fold (nonempty st);
    destruct (nonempty ru), (nonempty sc), (nonempty st);
    cbn [app obj_set String.eqb Ascii.eqb Bool.eqb];
    match goal with
    | |- decode_form _ = ?l => apply (decode_stringify l); discriminate
    end.
Qed.

Lemma get_query_reads_back_witness :
  is_get GenerateAuthorizationCode = true
  /\ supported sample_adapter = true
  /\ exists r q,
       requests (trace (run GenerateAuthorizationCode sample_adapter
                          awkward_redirect (caller returns)
                          (answer 302 undefined [])))
       = [r]
       /\ url r = "https://api.example.com/oauth"
                     ++ "/tokentypes/authcode/authcodes" ++ "?" ++ q
       /\ decode_form q
          = [("response_type", "code"); ("client_id", "id");
             ("redirect_uri", "https://app/cb?a=1&b=2"); ("state", "s#1")].
Proof.
  split; [reflexivity|]. split; [reflexivity|].
  apply (get_query_reads_back GenerateAuthorizationCode sample_adapter
           awkward_redirect returns (answer 302 undefined []) "id"
           "https://app/cb?a=1&b=2" EmptyString "s#1");
    reflexivity.
Defined.

(** ** The lifetime of a token *)

Lemma digits_value_acc (d : Decimal.uint) (acc : positive) :
  digits_value 10 (chars (NilEmpty.string_of_uint d)) (Some (Z.pos acc))
  = Some (Z.pos (Pos.of_uint_acc d acc)).
Proof.
  revert acc. induction d; intros acc;
    cbn [NilEmpty.string_of_uint chars list_ascii_of_string digits_value
         Pos.of_uint_acc];
    [reflexivity|..];
    fold (chars (NilEmpty.string_of_uint d));
    match goal with
    | |- context [digit_value 10 ?c] =>
      let v := eval vm_compute in (digit_value 10 c) in
      change (digit_value 10 c) with v
    end;
    cbv iota; rewrite <- IHd; do 2 f_equal; lia.
Qed.

Lemma digits_value_zero (d : Decimal.uint) :
  digits_value 10 (chars (NilEmpty.string_of_uint d)) (Some 0)
  = Some (Z.of_N (Pos.of_uint d)).
Proof.
  induction d;
    cbn [NilEmpty.string_of_uint chars list_ascii_of_string digits_value
         Pos.of_uint];
    [reflexivity|..];
    fold (chars (NilEmpty.string_of_uint d));
    match goal with
    | |- context [digit_value 10 ?c] =>
      let v := eval vm_compute in (digit_value 10 c) in
      change (digit_value 10 c) with v
    end;
    cbv iota; [exact IHd|..]; apply digits_value_acc.
Qed.

Lemma trim_start_low (c : ascii) (r : list ascii) :
  is_ascii_space c = false -> (ord c <? 128) = true ->
  trim_start (c :: r) = c :: r.
Proof.
  intros Hsp Hlow. apply Z.ltb_lt in Hlow.
  cbn [trim_start]. rewrite Hsp.
  destruct r as [|b [|c' r]]; [reflexivity| |].
  - replace (ord c =? 194) with false by (symmetry; apply Z.eqb_neq; lia).
    reflexivity.
  - replace (ord c =? 194) with false by (symmetry; apply Z.eqb_neq; lia).
    cbn [andb]. unfold is_space3.
    replace (ord c =? 225) with false by (symmetry; apply Z.eqb_neq; lia).
    replace (ord c =? 226) with false by (symmetry; apply Z.eqb_neq; lia).
    replace (ord c =? 227) with false by (symmetry; apply Z.eqb_neq; lia).
    replace (ord c =? 239) with false by (symmetry; apply Z.eqb_neq; lia).
    reflexivity.
Qed.

Lemma parseInt_string_uint (d : Decimal.uint) :
  d <> Decimal.Nil ->
  parseInt_string (NilEmpty.string_of_uint d)
  = Number_of_decimal false (Z.of_N (Pos.of_uint d)) 0.
Proof.
  intros Hd. unfold parseInt_string.
  destruct d as [|d|d|d|d|d|d|d|d|d|d]; [contradiction|..];
    cbn [NilEmpty.string_of_uint chars list_ascii_of_string];
    rewrite trim_start_low by reflexivity.
  1: destruct d as [|d|d|d|d|d|d|d|d|d|d];
       cbn [NilEmpty.string_of_uint chars list_ascii_of_string].
  all: cbv iota beta; cbn [digits_value Pos.of_uint];
    repeat match goal with
    | |- context [digit_value 10 ?c] =>
      let v := eval vm_compute in (digit_value 10 c) in
      change (digit_value 10 c) with v; cbv iota
    end.
  all: try reflexivity.
  all: fold (chars (NilEmpty.string_of_uint d)).
  all: rewrite ?Z.mul_0_l, ?Z.add_0_l, ?Z.add_0_r.
  all: rewrite ?digits_value_acc, ?digits_value_zero, ?Z.mul_1_l; reflexivity.
Qed.

Lemma parseInt_string_digits (n : Z) :
  0 <= n -> parseInt_string (decimal n) = Dec n 0.
Proof.
  intros Hn. unfold decimal, digits_of. rewrite text_chars.
  assert (Hnil : N.to_uint (Z.to_N n) <> Decimal.Nil).
  { destruct (Z.to_N n) as [|p]; [discriminate|].
    apply DecimalPos.Unsigned.to_uint_nonnil. }
  replace (NilZero.string_of_uint (N.to_uint (Z.to_N n)))
    with (NilEmpty.string_of_uint (N.to_uint (Z.to_N n)))
    by (unfold NilZero.string_of_uint;
        destruct (N.to_uint (Z.to_N n)); [contradiction|reflexivity..]).
  rewrite (parseInt_string_uint _ Hnil).
  change (Pos.of_uint (N.to_uint (Z.to_N n)))
    with (N.of_uint (N.to_uint (Z.to_N n))).
  rewrite DecimalN.Unsigned.of_to, Z2N.id by exact Hn.
  unfold Dec. rewrite Z.abs_eq by exact Hn.
  now replace (n <? 0) with false by (symmetry; apply Z.ltb_ge; lia).
Qed.


(** X19. An expires_in of the answer that reads as the decimal digits of
    n, be it the string of those digits or a JSON number that prints as
    them, comes back as the Number nearest to n: the result of a POST
    operation has that Number as its expires_in. *)
Theorem expires_in_of_integer op self options throws statusCode location
    chunks m n :
  is_post op = true -> supported self = true ->
  statusCode < 300 -> JSON.parse (received chunks) = Some (VObj m) ->
  0 <= n ->
  value_toString (field m "expires_in") = Some (decimal n) ->
  exists result,
    hd_error (calls (trace (run op self options (caller throws)
                              (answer statusCode location chunks))))
    = Some (None, VObj result)
    /\ obj_get "expires_in" result = Some (VPrim (PNum (Dec n 0))).
Proof.
  intros Hop Hs Hlt Hp Hn Hfield.
  rewrite (post_calls _ _ _ _ _ _ _ Hop Hs).
  rewrite (post_end_object _ _ _ _ _ _ Hlt Hp Hfield).
  eexists. split; [reflexivity|].
  cbn [obj_get String.eqb Ascii.eqb Bool.eqb]. do 3 f_equal.
  now apply parseInt_string_digits.
Qed.

Lemma expires_in_of_integer_witness :
  is_post CreateTokenClientCredentials = true
  /\ supported sample_adapter = true
  /\ 200 < 300
  /\ JSON.parse (received [["{"; quoted "expires_in"; ":86400}"]])
     = Some (VObj [("expires_in", VPrim (PNum (Dec 86400 0)))])
  /\ 0 <= 86400
  /\ value_toString (VPrim (PNum (Dec 86400 0))) = Some (decimal 86400)
  /\ exists result,
       hd_error (calls (trace (run CreateTokenClientCredentials sample_adapter
                                 sample_options (caller returns)
                                 (answer 200 undefined
                                    [["{"; quoted "expires_in"; ":86400}"]]))))
       = Some (None, VObj result)
       /\ obj_get "expires_in" result = Some (VPrim (PNum (Dec 86400 0))).
Proof.
  split; [reflexivity|]. split; [reflexivity|]. split; [lia|].
  split; [vm_compute; reflexivity|]. split; [lia|].
  split; [vm_compute; reflexivity|].
  apply (expires_in_of_integer CreateTokenClientCredentials sample_adapter
           sample_options returns 200 undefined
           [["{"; quoted "expires_in"; ":86400}"]]
           [("expires_in", VPrim (PNum (Dec 86400 0)))] 86400);
    [reflexivity | reflexivity | lia | vm_compute; reflexivity | lia
    | vm_compute; reflexivity].
Defined.

(** ** The credentials can be read back *)

Lemma in_all_ascii (x : ascii) : In x all_ascii.
Proof.
  unfold all_ascii. rewrite <- (ascii_nat_embedding x).
  apply in_map, in_seq. pose proof (nat_ascii_bounded x). lia.
Qed.

Lemma all_pairs_ok :
  forallb (fun x => forallb (pair_ok x) all_ascii) all_ascii = true.
Proof. vm_compute. reflexivity. Qed.

Lemma pair_ok_all (x y : ascii) : pair_ok x y = true.
Proof.
  pose proof all_pairs_ok as H. rewrite forallb_forall in H.
  specialize (H x (in_all_ascii x)). rewrite forallb_forall in H.
  exact (H y (in_all_ascii y)).
Qed.

Lemma sextet_decodes (i : Z) :
  sextet_ok i = true ->
  unb64 (b64 i) = Some i /\ Ascii.eqb (b64 i) "="%char = false.
Proof.
  unfold sextet_ok, opt_eqb. intros H. apply andb_prop in H as [H1 H2].
  apply negb_true_iff in H2. split; [|exact H2].
  destruct (unb64 (b64 i)) as [w|]; [|discriminate H1].
  apply Z.eqb_eq in H1. now subst w.
Qed.

Lemma pair_facts_all (x y : ascii) : pair_facts x y.
Proof.
  pose proof (pair_ok_all x y) as H. unfold pair_ok in H.
  repeat match type of H with
         | _ && _ = true => apply andb_prop in H; destruct H as [H ?]
         end.
  repeat match goal with
         | K : sextet_ok _ = true |- _ => apply sextet_decodes in K; destruct K
         | K : (_ =? _) = true |- _ => apply Z.eqb_eq in K
         end.
  constructor; assumption.
Qed.

Lemma decode_group (x y z : ascii) (r : list ascii) :
  base64_decode_chars
    (b64 (sextet1 x) :: b64 (sextet2 x y) :: b64 (sextet3 y z)
       :: b64 (sextet4 z) :: r)
  = option_map (fun t => ord x :: ord y :: ord z :: t)
      (base64_decode_chars r).
Proof.
  destruct (pair_facts_all x y), (pair_facts_all y z), (pair_facts_all z z).
  cbn [base64_decode_chars].
  repeat match goal with
         | K : unb64 _ = Some _ |- _ => rewrite K; clear K
         | K : Ascii.eqb _ _ = false |- _ => rewrite K; clear K
         end.
  repeat match goal with
         | K : _ = _ |- _ => progress rewrite K
         end.
  reflexivity.
Qed.

Lemma decode_one (x : ascii) :
  base64_decode_chars (base64_bytes [ord x]) = Some [ord x].
Proof.
  destruct (pair_facts_all x zero_char).
  cbn [base64_bytes base64_decode_chars].
  change (Z.shiftr (ord x) 2) with (sextet1 x).
  replace (Z.shiftl (Z.land (ord x) 3) 4) with (sextet2 x zero_char)
    by (unfold sextet2; now rewrite Z.lor_0_r).
  repeat match goal with
         | K : unb64 _ = Some _ |- _ => rewrite ?K; clear K
         end.
  cbn [Ascii.eqb Bool.eqb]. now f_equal; f_equal.
Qed.

Lemma decode_two (x y : ascii) :
  base64_decode_chars (base64_bytes [ord x; ord y]) = Some [ord x; ord y].
Proof.
  destruct (pair_facts_all x y), (pair_facts_all y zero_char).
  cbn [base64_bytes base64_decode_chars].
  change (Z.shiftr (ord x) 2) with (sextet1 x).
  change (Z.lor (Z.shiftl (Z.land (ord x) 3) 4) (Z.shiftr (ord y) 4))
    with (sextet2 x y).
  replace (Z.shiftl (Z.land (ord y) 15) 2) with (sextet3 y zero_char)
    by (unfold sextet3; now rewrite Z.lor_0_r).
  repeat match goal with
         | K : unb64 _ = Some _ |- _ => rewrite ?K; clear K
         | K : Ascii.eqb _ _ = false |- _ => rewrite ?K; clear K
         end.
  cbn [Ascii.eqb Bool.eqb].
  repeat match goal with
         | K : _ = _ |- _ => progress rewrite K
         end.
  reflexivity.
Qed.

Lemma decode_bytes (l : list ascii) :
  base64_decode_chars (base64_bytes (map ord l)) = Some (map ord l).
Proof.
  remember (length l) as n eqn:Hn. revert l Hn.
  induction n as [n IH] using lt_wf_ind. intros l Hn.
  destruct l as [|x [|y [|z l]]].
  - reflexivity.
  - apply decode_one.
  - apply decode_two.
  - cbn [map base64_bytes].
    change (Z.shiftr (ord x) 2) with (sextet1 x).
    change (Z.lor (Z.shiftl (Z.land (ord x) 3) 4) (Z.shiftr (ord y) 4))
      with (sextet2 x y).
    change (Z.lor (Z.shiftl (Z.land (ord y) 15) 2) (Z.shiftr (ord z) 6))
      with (sextet3 y z).
    change (Z.land (ord z) 63) with (sextet4 z).
    rewrite decode_group, (IH (length l)); [reflexivity | | reflexivity].
    subst n. simpl. lia.
Qed.

Lemma ascii_of_ord (c : ascii) : ascii_of_code (ord c) = c.
Proof.
  unfold ascii_of_code, ord. now rewrite N2Z.id, ascii_N_embedding.
Qed.

Lemma base64_decode_encode (s : string) : base64_decode (base64 s) = Some s.
Proof.
  unfold base64_decode, base64. rewrite chars_text, decode_bytes.
  cbn [option_map]. rewrite map_map. f_equal.
  rewrite <- (text_chars s) at 2. f_equal.
  induction (chars s) as [|c l IH]; [reflexivity|].
  cbn [map]. now rewrite ascii_of_ord, IH.
Qed.

(** X20. The Authorization header of a POST operation decodes, as
    base64, to the clientId, a colon and the clientSecret, each as
    JavaScript writes it in a string: a clientId or clientSecret that is
    missing travels as the text undefined. *)
Theorem authorization_reads_back op self options throws net :
  is_post op = true -> supported self = true ->
  exists r a,
    requests (trace (run op self options (caller throws) net)) = [r]
    /\ obj_get "Authorization" (headers r) = Some (PStr a)
    /\ base64_decode a
       = Some (to_str (clientId options) ++ ":"
                 ++ to_str (clientSecret options)).
Proof.
  intros Hop Hs.
  destruct (post_sends op self options throws net Hop Hs)
    as (r & Hreq & _ & _ & Hauth & _).
  exists r. eexists. split; [exact Hreq|]. split; [exact Hauth|].
  apply base64_decode_encode.
Qed.

Lemma authorization_reads_back_witness :
  is_post InvalidateToken = true
  /\ supported sample_adapter = true
  /\ exists r a,
       requests (trace (run InvalidateToken sample_adapter no_options
                          (caller returns) (answer 200 undefined [])))
       = [r]
       /\ obj_get "Authorization" (headers r) = Some (PStr a)
       /\ base64_decode a = Some "undefined:undefined".
Proof.
  split; [reflexivity|]. split; [reflexivity|].
  apply (authorization_reads_back InvalidateToken sample_adapter no_options
           returns (answer 200 undefined []));
    reflexivity.
Defined.
